(** * Solana developer guide: vanity wallet search, token balance, SOL transfer

    A shallow embedding of

    - [generateVanityWallet] and its inline worker script
      (2-wallet/wallet.ts),
    - [getTokenBalance] (the SPL token script),
    - [transferSOL] (4-transfer),

    together with the properties their specification states about them.

    Conventions.  A JavaScript string is a [string] of code units below 256;
    this range contains the base58 alphabet every address is written in.
    Integral JavaScript numbers are [Z].  Where a script computes with
    numbers that need not be integral (the rate shown while searching, the
    lamports of a transfer), the computation is done in binary64 as
    JavaScript does it, on the IEEE 754 specification [SpecFloat] of the
    Standard Library.  Calls into @solana/web3.js and @solana/spl-token are
    parameters of a [Section]. *)

From Stdlib Require Import ZArith QArith Qround Lia Bool List Ascii String DecimalString.
From Stdlib Require Import SpecFloat.
From stdpp Require Import base tactics option list.
Import ListNotations.

Local Open Scope Z_scope.

(* ===================================================================== *)
(** ** JavaScript string primitives used by the worker script *)
(* ===================================================================== *)

Module JS.

  (** [String.prototype.toLowerCase] on one code unit below 256: the letters
      A-Z and the Latin-1 capitals U+00C0..U+00DE (without the multiplication
      sign U+00D7) move up by 32, every other unit is left alone. *)
Definition lower_unit (c : ascii) : ascii :=
    let n := N_of_ascii c in
    if ((65 <=? n) && (n <=? 90)
        || (192 <=? n) && (n <=? 222) && negb (n =? 215))%N
    then ascii_of_N (n + 32)
    else c.

Fixpoint toLowerCase (s : string) : string :=
    match s with
    | EmptyString => EmptyString
    | String c r => String (lower_unit c) (toLowerCase r)
    end.

  (** [s.startsWith(p)] *)
Definition startsWith (s p : string) : bool := String.prefix p s.

  (** [s.endsWith(p)]: with [start = s.length - p.length], false when
      [start < 0], otherwise the units of [s] from [start] on are compared
      with [p]. *)
Definition endsWith (s p : string) : bool :=
    let len := String.length s in
    let searchLength := String.length p in
    if (len <? searchLength)%nat then false
    else String.eqb (substring (len - searchLength) searchLength s) p.

  (** Truthiness of a string value: only the empty string is falsy. *)
Definition truthy (s : string) : bool := negb (String.eqb s "").

  (** Truthiness of an optional string property ([undefined] is falsy). *)
Definition truthy_opt (o : option string) : bool :=
    match o with
    | Some s => truthy s
    | None => false
    end.

  (** A JavaScript number as far as the progress display can tell them apart:
      a finite value, an infinity, or NaN. *)
Inductive number : Type :=
  | Finite (z : Z)
  | PosInfinity
  | NegInfinity
  | NaN.

Definition isFinite (x : number) : bool :=
    match x with
    | Finite _ => true
    | _ => false
    end.

End JS.

(* ===================================================================== *)
(** ** JavaScript numbers: binary64 *)
(* ===================================================================== *)

(** The arithmetic of JavaScript numbers: IEEE 754 binary64, rounding to
    nearest, ties to even. *)
Module Binary64.

Definition prec : Z := 53.
Definition emax : Z := 1024.

Definition float : Type := spec_float.

(** The number an integer value or literal denotes (exact below 2^53). *)
Definition of_Z (z : Z) : float := binary_normalize prec emax z 0 false.

(** [x * y], [x + y], [x / y], [x < y] *)
Definition fmul : float -> float -> float := SFmul prec emax.
Definition fadd : float -> float -> float := SFadd prec emax.
Definition fdiv : float -> float -> float := SFdiv prec emax.
Definition flt : float -> float -> bool := SFltb.

(** [Math.floor(x)], as the integer it is when [x] is finite. *)
Definition floor (x : float) : JS.number :=
  match x with
  | S754_nan => JS.NaN
  | S754_infinity false => JS.PosInfinity
  | S754_infinity true => JS.NegInfinity
  | S754_zero _ => JS.Finite 0
  | S754_finite s m e =>
      let v := if s then Zneg m else Zpos m in
      JS.Finite (if 0 <=? e then v * 2 ^ e else v / 2 ^ (- e))
  end.

(** [Number.isInteger(x)] together with the integer: [None] for NaN, the
    infinities and every number with a fractional part. *)
Definition to_integer (x : float) : option Z :=
  match x with
  | S754_nan | S754_infinity _ => None
  | S754_zero _ => Some 0
  | S754_finite s m e =>
      let v := if s then Zneg m else Zpos m in
      if 0 <=? e then Some (v * 2 ^ e)
      else if Zpos m mod 2 ^ (- e) =? 0 then Some (v / 2 ^ (- e))
      else None
  end.

End Binary64.

Arguments Binary64.of_Z : simpl never.
Arguments Binary64.fmul : simpl never.
Arguments Binary64.fadd : simpl never.
Arguments Binary64.fdiv : simpl never.
Arguments Binary64.flt : simpl never.

(* ===================================================================== *)
(** ** The worker script *)
(* ===================================================================== *)

(** [workerData] handed to every worker. *)
Record WorkerData : Type := mkWorkerData {
  wd_prefix : option string;
  wd_suffix : option string;
  wd_caseSensitive : bool;
  wd_threadId : nat
}.

Definition presearch (caseSensitive : bool) (pattern : option string) : string :=
  match pattern with
  | Some p =>
      if JS.truthy p
      then (if caseSensitive then p else JS.toLowerCase p)
      else EmptyString
  | None => EmptyString
  end.

Definition searchPrefix (wd : WorkerData) : string :=
  presearch (wd_caseSensitive wd) (wd_prefix wd).

Definition searchSuffix (wd : WorkerData) : string :=
  presearch (wd_caseSensitive wd) (wd_suffix wd).

Definition checkAddress (wd : WorkerData) (address : string) : bool :=
  let addr := if wd_caseSensitive wd then address else JS.toLowerCase address in
  if JS.truthy (searchPrefix wd) && negb (JS.startsWith addr (searchPrefix wd))
  then false
  else if JS.truthy (searchSuffix wd) && negb (JS.endsWith addr (searchSuffix wd))
  then false
  else true.

(** Messages a worker posts to the coordinator: the [found] report and the
    [progress] report. *)
Inductive Message (Secret : Type) : Type :=
| MsgFound (publicKey : string) (secretKey : Secret) (attempts : Z)
| MsgProgress (attempts : Z).
Arguments MsgFound {Secret} publicKey secretKey attempts.
Arguments MsgProgress {Secret} attempts.

Definition progressInterval : Z := 1000.

Section Worker.
  (** A key pair is identified with its secret key; [address_of] is the text
      of the public key the SDK derives from it, both for the pair
      [Keypair.generate()] returns and for [Keypair.fromSecretKey]. *)
Context {Secret : Type} (address_of : Secret -> string).

  (** The [while (true)] loop of the worker, run on the key pairs that
      [Keypair.generate()] hands out, in order.  The result is what the worker
      has posted when those are used up, or when it left the loop. *)
Fixpoint worker_loop (wd : WorkerData) (generated : list Secret) (attempts : Z)
    : list (Message Secret) :=
    match generated with
    | [] => []
    | keypair :: later =>
        let attempts := attempts + 1 in
        let publicKey := address_of keypair in
        if checkAddress wd publicKey
        then [MsgFound publicKey keypair attempts]
        else
          (if attempts mod progressInterval =? 0
           then [MsgProgress progressInterval]
           else [])
          ++ worker_loop wd later attempts
    end.

Definition workerScript (wd : WorkerData) (generated : list Secret)
    : list (Message Secret) :=
    worker_loop wd generated 0.
End Worker.

(* ===================================================================== *)
(** ** The coordinator: generateVanityWallet *)
(* ===================================================================== *)

(** The three errors the function creates. *)
Inductive Failure : Type :=
| NotMainThread      (* 此函数只能在主线程中调用 *)
| InvalidRequest     (* 必须指定前缀或后缀 *)
| Timeout.           (* 搜索超时 *)

Record Options : Type := mkOptions {
  prefix : option string;
  suffix : option string;
  caseSensitive : option bool;
  threadsCount : option Z;
  timeout : option Z
}.

(** What the function reads from its surroundings. *)
Record Env : Type := mkEnv {
  isMainThread : bool;
  cpus_length : Z;       (* os.cpus().length *)
  clock : Z              (* Date.now() when the promise executor runs *)
}.

(** A promise settles once: [resolve] and [reject] on a settled promise do
    nothing. *)
Inductive Promise (Secret : Type) : Type :=
| Pending
| Resolved (keypair : Secret)
| Rejected (error : Failure).
Arguments Pending {Secret}.
Arguments Resolved {Secret} keypair.
Arguments Rejected {Secret} error.

Definition resolve {Secret} (keypair : Secret) (p : Promise Secret) : Promise Secret :=
  match p with
  | Pending => Resolved keypair
  | _ => p
  end.

Definition reject {Secret} (error : Failure) (p : Promise Secret) : Promise Secret :=
  match p with
  | Pending => Rejected error
  | _ => p
  end.

(** [timeoutId]: [null], or a timer that is still to fire, was cleared, or
    has fired.  [Armed ms] is the pending timer of [setTimeout(handler, ms)];
    Node runs it after [ms] milliseconds when [1 <= ms <= TIMEOUT_MAX] (and
    after 1 millisecond for any other [ms]). *)
Inductive Timer : Type :=
| NoTimer
| Armed (ms : Z)
| Cleared
| Fired.

Definition TIMEOUT_MAX : Z := 2147483647.

Definition clearTimeout (t : Timer) : Timer :=
  match t with
  | Armed _ => Cleared
  | _ => t
  end.

Record WorkerHandle : Type := mkWorker {
  workerData : WorkerData;
  terminated : bool
}.

Definition terminate (w : WorkerHandle) : WorkerHandle :=
  {| workerData := workerData w; terminated := true |}.

(** Lines written to the console and to stdout. *)
Inductive Output : Type :=
| OutStart (threads : Z) (caseSensitive : bool)
| OutPrefix (p : string)
| OutSuffix (s : string)
| OutProgress (total : Z) (rate : JS.number)
| OutTimeout (ms : Z)
| OutFound (total : Z)
| OutWorkerError (thread : nat)
| OutWorkerExit (thread : nat) (code : Z).

(** The variables the promise executor closes over. *)
Record State (Secret : Type) : Type := mkState {
  walletFound : bool;
  totalAttempts : Z;
  startTime : Z;
  updateInterval : bool;         (* the 100 ms interval is still set *)
  timeoutId : Timer;
  workers : list WorkerHandle;
  promise : Promise Secret;
  console : list Output
}.
Arguments mkState {Secret}.
Arguments walletFound {Secret}.
Arguments totalAttempts {Secret}.
Arguments startTime {Secret}.
Arguments updateInterval {Secret}.
Arguments timeoutId {Secret}.
Arguments workers {Secret}.
Arguments promise {Secret}.
Arguments console {Secret}.

(** What the event loop can deliver to the coordinator. *)
Inductive Event (Secret : Type) : Type :=
| EvMessage (i : nat) (message : Message Secret)
| EvError (i : nat)
| EvExit (i : nat) (code : Z)
| EvTimeout
| EvTick (now : Z).
Arguments EvMessage {Secret} i message.
Arguments EvError {Secret} i.
Arguments EvExit {Secret} i code.
Arguments EvTimeout {Secret}.
Arguments EvTick {Secret} now.

(** [a || b] on numbers: [a] unless it is [undefined] or 0. *)
Definition or_default (a : option Z) (b : Z) : Z :=
  match a with
  | Some n => if n =? 0 then b else n
  | None => b
  end.

(** [Math.floor(totalAttempts / elapsedSec)] with
    [elapsedSec = elapsedMs / 1000] and [elapsedMs = Date.now() - startTime]:
    two divisions in binary64, each rounded, then the floor. *)
Definition rate (totalAttempts elapsedMs : Z) : JS.number :=
  let elapsedSec := Binary64.fdiv (Binary64.of_Z elapsedMs) (Binary64.of_Z 1000) in
  Binary64.floor (Binary64.fdiv (Binary64.of_Z totalAttempts) elapsedSec).

Section Coordinator.
Context {Secret : Type}.

Definition updateProgress (now : Z) (st : State Secret) : State Secret :=
    let elapsedMs := now - startTime st in
    mkState (walletFound st) (totalAttempts st) (startTime st)
            (updateInterval st) (timeoutId st) (workers st) (promise st)
            (console st ++ [OutProgress (totalAttempts st) (rate (totalAttempts st) elapsedMs)]).

  (** The callback given to [setTimeout]. *)
Definition timeoutHandler (ms : Z) (st : State Secret) : State Secret :=
    mkState (walletFound st) (totalAttempts st) (startTime st)
            false (timeoutId st) (map terminate (workers st))
            (reject Timeout (promise st))
            (console st ++ [OutTimeout ms]).

  (** [worker.on('message', ...)] *)
Definition on_message (message : Message Secret) (st : State Secret) : State Secret :=
    match message with
    | MsgFound _ secretKey attempts =>
        if negb (walletFound st)
        then mkState true (totalAttempts st) (startTime st)
                     false (clearTimeout (timeoutId st)) (map terminate (workers st))
                     (resolve secretKey (promise st))
                     (console st ++ [OutFound (totalAttempts st + attempts)])
        else st
    | MsgProgress attempts =>
        mkState (walletFound st) (totalAttempts st + attempts) (startTime st)
                (updateInterval st) (timeoutId st) (workers st) (promise st)
                (console st)
    end.

  (** [worker.on('error', ...)] of worker [i] *)
Definition on_error (i : nat) (st : State Secret) : State Secret :=
    mkState (walletFound st) (totalAttempts st) (startTime st)
            (updateInterval st) (timeoutId st)
            (if negb (walletFound st) then alter terminate i (workers st) else workers st)
            (promise st)
            (console st ++ [OutWorkerError (i + 1)]).

  (** [worker.on('exit', ...)] of worker [i] *)
Definition on_exit (i : nat) (code : Z) (st : State Secret) : State Secret :=
    if negb (code =? 0) && negb (walletFound st)
    then mkState (walletFound st) (totalAttempts st) (startTime st)
                 (updateInterval st) (timeoutId st) (workers st) (promise st)
                 (console st ++ [OutWorkerExit (i + 1) code])
    else st.

  (** One turn of the event loop.  A timer that was cleared or has fired, and
      an interval that was cleared, run no callback. *)
Definition step (st : State Secret) (ev : Event Secret) : State Secret :=
    match ev with
    | EvMessage _ message => on_message message st
    | EvError i => on_error i st
    | EvExit i code => on_exit i code st
    | EvTimeout =>
        match timeoutId st with
        | Armed ms =>
            timeoutHandler ms
              (mkState (walletFound st) (totalAttempts st) (startTime st)
                       (updateInterval st) Fired (workers st) (promise st) (console st))
        | _ => st
        end
    | EvTick now => if updateInterval st then updateProgress now st else st
    end.

Definition run (st : State Secret) (evs : list (Event Secret)) : State Secret := fold_left step evs st.

Definition spawn (options : Options) (caseSensitive : bool) (i : nat) : WorkerHandle :=
    mkWorker (mkWorkerData (prefix options) (suffix options) caseSensitive i) false.

  (** The function up to the point where it returns the promise: either it
      throws, or the executor has run and left the state below. *)
Definition generateVanityWallet (env : Env) (options : Options) : Failure + State Secret :=
    if negb (isMainThread env) then inl NotMainThread
    else if negb (JS.truthy_opt (prefix options)) && negb (JS.truthy_opt (suffix options))
    then inl InvalidRequest
    else
      let threadsCount := or_default (threadsCount options) (Z.max 1 (cpus_length env - 1)) in
      let timeout := or_default (timeout options) 60000 in
      let caseSensitive :=
        match caseSensitive options with
        | Some b => b
        | None => true
        end in
      inr (mkState false 0 (clock env) true
             (if 0 <? timeout then Armed timeout else NoTimer)
             (map (spawn options caseSensitive) (seq 0 (Z.to_nat threadsCount)))
             Pending
             ([OutStart threadsCount caseSensitive]
              ++ match prefix options with
                 | Some p => if JS.truthy p then [OutPrefix p] else []
                 | None => []
                 end
              ++ match suffix options with
                 | Some s => if JS.truthy s then [OutSuffix s] else []
                 | None => []
                 end)).

  (** Workers the call has created. *)
Definition spawned (r : Failure + State Secret) : list WorkerHandle :=
    match r with
    | inl _ => []
    | inr st => workers st
    end.
End Coordinator.

(* ===================================================================== *)
(** ** getTokenBalance *)
(* ===================================================================== *)

Module Token.

Record MintInfo : Type := mkMint { decimals : Z }.

Record TokenBalance : Type := mkBalance {
    balance : Binary64.float;
    tokenAccount : string
  }.

Section GetTokenBalance.
    (** The SDK and the RPC connection, as seen by one call. *)
Context {PublicKey Error : Type}.
Variable newPublicKey : string -> Error + PublicKey.
Variable toString : PublicKey -> string.
Variable getAssociatedTokenAddress : PublicKey -> PublicKey -> Error + PublicKey.
Variable getMint : PublicKey -> Error + MintInfo.
Variable getTokenAccountBalance : PublicKey -> Error + Z.
Variable Math_pow : Binary64.float -> Binary64.float -> Binary64.float.

    (** [typeof a === 'string' ? new PublicKey(a) : a] *)
Definition asPublicKey (a : string + PublicKey) : Error + PublicKey :=
      match a with
      | inl text => newPublicKey text
      | inr key => inr key
      end.

    (** The result, and the errors written with [console.error].  The amount
        read is a string of decimal digits; [Number] rounds it to binary64,
        and the quotient by [Math.pow(10, decimals)] is rounded again. *)
Definition getTokenBalance (walletAddress mintAddress : string + PublicKey)
      : (Error + TokenBalance) * list Error :=
      match asPublicKey walletAddress with
      | inl e => (inl e, [])
      | inr walletPublicKey =>
          match asPublicKey mintAddress with
          | inl e => (inl e, [])
          | inr mintPublicKey =>
              (* outer try *)
              match getAssociatedTokenAddress mintPublicKey walletPublicKey with
              | inl error => (inl error, [error])
              | inr tokenAccountAddress =>
                  match getMint mintPublicKey with
                  | inl error => (inl error, [error])
                  | inr mintInfo =>
                      let tokenDecimals := decimals mintInfo in
                      (* inner try *)
                      match getTokenAccountBalance tokenAccountAddress with
                      | inr amount =>
                          (inr (mkBalance
                                  (Binary64.fdiv
                                     (Binary64.of_Z amount)
                                     (Math_pow (Binary64.of_Z 10)
                                               (Binary64.of_Z tokenDecimals)))
                                  (toString tokenAccountAddress)), [])
                      | inl _ =>
                          (inr (mkBalance (Binary64.of_Z 0)
                                          (toString tokenAccountAddress)), [])
                      end
                  end
              end
          end
      end.
End GetTokenBalance.

End Token.

(* ===================================================================== *)
(** ** transferSOL *)
(* ===================================================================== *)

Module Transfer.

Definition LAMPORTS_PER_SOL : Z := 1000000000.

Section TransferSOL.
Context {Bytes Keypair PublicKey Blockhash Signature Simulation Ledger Error : Type}.
Context {Instruction : Type}.

    (** [new Transaction().add(instruction)], then its fee payer and recent
        blockhash. *)
Record Transaction : Type := mkTransaction {
      instructions : list Instruction;
      feePayer : option PublicKey;
      recentBlockhash : option Blockhash
    }.

    (** What [transferSOL] can throw: an error of the SDK, or one of its own
        two. *)
Inductive Thrown : Type :=
    | SdkError (e : Error)
    | InvalidRecipient                                    (* 无效的接收者钱包地址 *)
    | InsufficientBalance (senderBalance : Z) (amount : Binary64.float). (* 余额不足 *)

    (** Requests made to the cluster, and transactions built, in order. *)
Inductive Action : Type :=
    | GetBalance (owner : PublicKey)
    | BuildTransfer (tx : Transaction)
    | GetLatestBlockhash
    | Simulate (tx : Transaction)
    | SendAndConfirm (tx : Transaction).

Inductive Line : Type :=
    | LineStart (amount : Binary64.float) (sender : PublicKey) (recipient : string)
    | LineSimulated (r : Simulation)
    | LineSuccess (signature : Signature)
    | LineFailed (error : Thrown).

Record World : Type := mkWorld {
      ledger : Ledger;
      actions : list Action;
      printed : list Line
    }.

    (** State and exceptions. *)
Definition M (A : Type) : Type := World -> (Thrown + A) * World.

Definition ret {A} (a : A) : M A := fun w => (inr a, w).
Definition throw {A} (e : Thrown) : M A := fun w => (inl e, w).
Definition bind {A B} (m : M A) (k : A -> M B) : M B :=
      fun w =>
        match m w with
        | (inl e, w') => (inl e, w')
        | (inr a, w') => k a w'
        end.
Definition try_catch {A} (body : M A) (handler : Thrown -> M A) : M A :=
      fun w =>
        match body w with
        | (inl e, w') => handler e w'
        | r => r
        end.

Definition sdk {A} (r : Error + A) : M A :=
      match r with
      | inl e => throw (SdkError e)
      | inr a => ret a
      end.
Definition record (a : Action) : M unit :=
      fun w => (inr tt, mkWorld (ledger w) (actions w ++ [a]) (printed w)).
Definition print (l : Line) : M unit :=
      fun w => (inr tt, mkWorld (ledger w) (actions w) (printed w ++ [l])).
Definition read_ledger : M Ledger := fun w => (inr (ledger w), w).
Definition write_ledger (l : Ledger) : M unit :=
      fun w => (inr tt, mkWorld l (actions w) (printed w)).

Variable bs58_decode : string -> Error + Bytes.
Variable fromSecretKey : Bytes -> Error + Keypair.
Variable publicKey : Keypair -> PublicKey.
Variable newPublicKey : string -> Error + PublicKey.
Variable isOnCurve : PublicKey -> bool.
Variable getBalance : Ledger -> PublicKey -> Error + Z.
    (** [SystemProgram.transfer({fromPubkey, toPubkey, lamports})]; it throws
        for lamports it cannot encode. *)
Variable SystemProgram_transfer : PublicKey -> PublicKey -> Binary64.float -> Error + Instruction.
Variable getLatestBlockhash : Ledger -> Error + Blockhash.
Variable simulateTransaction : Ledger -> Transaction -> Error + Simulation.
Variable sendAndConfirmTransaction : Ledger -> Transaction -> (Error + Signature) * Ledger.

Local Notation "x <- m ;; k" := (bind m (fun x => k))
      (at level 100, m at next level, right associativity).
Local Notation "m ;;; k" := (bind m (fun _ => k))
      (at level 100, k at level 200, right associativity).

    (** [amount] is a number of SOL, not necessarily whole; the product with
        [LAMPORTS_PER_SOL], the sum with 5000 and the comparison with the
        balance are those of binary64. *)
Definition transferSOL (secretKey recipientAddress : string) (amount : Binary64.float)
  : M Signature :=
      try_catch
        (decodedSecretKey <- sdk (bs58_decode secretKey) ;;
         senderKeypair <- sdk (fromSecretKey decodedSecretKey) ;;
         recipientPublicKey <- sdk (newPublicKey recipientAddress) ;;
         (if negb (isOnCurve recipientPublicKey) then throw InvalidRecipient else ret tt) ;;;
         chain <- read_ledger ;;
         record (GetBalance (publicKey senderKeypair)) ;;;
         senderBalance <- sdk (getBalance chain (publicKey senderKeypair)) ;;
         let amountInLamports :=
           Binary64.fmul amount (Binary64.of_Z LAMPORTS_PER_SOL) in
         (if Binary64.flt (Binary64.of_Z senderBalance)
                          (Binary64.fadd amountInLamports (Binary64.of_Z 5000))
          then throw (InsufficientBalance senderBalance amount)
          else ret tt) ;;;
         print (LineStart amount (publicKey senderKeypair) recipientAddress) ;;;
         instruction <-
           sdk (SystemProgram_transfer (publicKey senderKeypair) recipientPublicKey
                                       amountInLamports) ;;
         let transfer := mkTransaction [instruction] None None in
         record (BuildTransfer transfer) ;;;
         record GetLatestBlockhash ;;;
         blockhash <- sdk (getLatestBlockhash chain) ;;
         let transaction :=
           mkTransaction (instructions transfer)
                         (Some (publicKey senderKeypair)) (Some blockhash) in
         record (Simulate transaction) ;;;
         simulatedTransaction <- sdk (simulateTransaction chain transaction) ;;
         print (LineSimulated simulatedTransaction) ;;;
         record (SendAndConfirm transaction) ;;;
         signature <-
           (fun w =>
              let '(r, chain') := sendAndConfirmTransaction (ledger w) transaction in
              sdk r (mkWorld chain' (actions w) (printed w))) ;;
         print (LineSuccess signature) ;;;
         ret signature)
        (fun error => print (LineFailed error) ;;; throw error).

End TransferSOL.

End Transfer.

(* ===================================================================== *)
(** ** The requested pattern, in the specification's words *)
(* ===================================================================== *)

(** These follow the specification's sentences, not the script; the theorems
    compare them with [checkAddress]. *)
Module Spec.

(** The same text up to letter-casing. *)
Definition same_letters (a b : string) : Prop :=
  JS.toLowerCase a = JS.toLowerCase b.

Definition agrees (caseSensitive : bool) (found wanted : string) : Prop :=
  if caseSensitive then found = wanted else same_letters found wanted.

Definition begins_with (caseSensitive : bool) (wanted address : string) : Prop :=
  exists head rest, address = (head ++ rest)%string /\ agrees caseSensitive head wanted.

Definition ends_with (caseSensitive : bool) (wanted address : string) : Prop :=
  exists rest tail, address = (rest ++ tail)%string /\ agrees caseSensitive tail wanted.

(** The address satisfies the requested prefix and/or suffix under the
    requested case sensitivity; a pattern that is absent or empty asks for
    nothing. *)
Definition satisfies (caseSensitive : bool) (prefix suffix : option string)
    (address : string) : Prop :=
  (forall p, prefix = Some p -> p <> EmptyString -> begins_with caseSensitive p address)
  /\ (forall s, suffix = Some s -> s <> EmptyString -> ends_with caseSensitive s address).

End Spec.

(** The case sensitivity a request asks for. *)
Definition requested_case (options : Options) : bool :=
  match caseSensitive options with
  | Some b => b
  | None => true
  end.

(** Every message the event loop delivers for worker [i] was posted by that
    worker, running the script on its own [workerData] and on the key pairs it
    generated. *)
Definition posted_by_workers {Secret} (address_of : Secret -> string)
    (pool : list WorkerHandle) (evs : list (Event Secret)) : Prop :=
  forall i message,
    In (EvMessage i message) evs ->
    exists w generated,
      pool !! i = Some w
      /\ In message (workerScript address_of (workerData w) generated).

(** Once a match was honoured, the promise is settled and neither the timer
    nor the progress interval is left to fire. *)
Definition found_inv {Secret} (st : State Secret) : Prop :=
  walletFound st = true ->
  promise st <> Pending /\ (forall ms, timeoutId st <> Armed ms) /\ updateInterval st = false.

(** Events that neither report a match nor fire the timer. *)
Definition quiet {Secret} (ev : Event Secret) : bool :=
  match ev with
  | EvMessage _ (MsgFound _ _ _) => false
  | EvTimeout => false
  | _ => true
  end.

(** Events that are only worker failures: [error] and [exit]. *)
Definition failure_only {Secret} (ev : Event Secret) : bool :=
  match ev with
  | EvError _ | EvExit _ _ => true
  | _ => false
  end.

(** The rate that a progress line shows, if the line is one. *)
Definition shown_rate (o : Output) : option JS.number :=
  match o with
  | OutProgress _ r => Some r
  | _ => None
  end.

(** The escalation the specification describes, in its words: once every
    worker has been terminated and no match was found, the search has failed
    with some error. *)
Definition fatal_when_no_worker_left (Secret : Type) : Prop :=
  forall (env : Env) (options : Options) (st0 : State Secret) (evs : list (Event Secret)),
    generateVanityWallet env options = inr st0 ->
    forallb terminated (workers (run st0 evs)) = true ->
    walletFound (run st0 evs) = false ->
    exists error, promise (run st0 evs) = Rejected error.

(** The guard the specification describes, in its words: every progress
    tick shows a finite rate. *)
Definition rate_always_finite (Secret : Type) : Prop :=
  forall (st : State Secret) (now : Z),
    JS.isFinite (rate (totalAttempts st) (now - startTime st)) = true.

(** Once the search has an outcome, every worker has been told to terminate
    and the progress interval is cleared. *)
Definition stopped_inv {Secret} (st : State Secret) : Prop :=
  promise st <> Pending ->
  Forall (fun w => terminated w = true) (workers st) /\ updateInterval st = false.

(* ===================================================================== *)
(** ** Wallets from a mnemonic or a private key *)
(* ===================================================================== *)

Module Wallet.

(** [`${n}`] for an integral number (below 10^21 in size, where JavaScript
    still prints all digits). *)
Definition Number_toString (n : Z) : string := NilZero.string_of_int (Z.to_int n).

(** The default of [createWalletFromMnemonic]'s second parameter. *)
Definition default_path : string := "m/44'/501'/0'/0'".

(** [`m/44'/501'/${accountIndex}'/0'`] *)
Definition account_path (accountIndex : Z) : string :=
  ("m/44'/501'/" ++ Number_toString accountIndex ++ "'/0'")%string.

Section FromMnemonic.
(** bip39, ed25519-hd-key, bs58 and the SDK's [Keypair]. *)
Context {Seed Key Bytes Keypair Error : Type}.
Variable validateMnemonic : string -> bool.
Variable mnemonicToSeedSync : string -> Seed.
Variable derivePath : string -> Seed -> Error + Key.
Variable fromSeed : Key -> Error + Keypair.
Variable bs58_decode : string -> Error + Bytes.
Variable fromSecretKey : Bytes -> Error + Keypair.

Inductive Thrown : Type :=
| InvalidMnemonic            (* 无效的助记词 *)
| Sdk (e : Error).

Definition createWalletFromMnemonic (mnemonic : string) (path : option string)
  : Thrown + Keypair :=
  let path := match path with Some p => p | None => default_path end in
  if negb (validateMnemonic mnemonic) then inl InvalidMnemonic
  else
    let seed := mnemonicToSeedSync mnemonic in
    match derivePath path seed with
    | inl e => inl (Sdk e)
    | inr derivedSeed =>
        match fromSeed derivedSeed with
        | inl e => inl (Sdk e)
        | inr keypair => inr keypair
        end
    end.

(** The [for] loop of [deriveMultipleWallets] with [remaining] iterations to
    go, at index [i], having pushed [wallets]. *)
Fixpoint derive_loop (seed : Seed) (accountOffset : Z) (remaining : nat) (i : Z)
    (wallets : list Keypair) : Thrown + list Keypair :=
  match remaining with
  | O => inr wallets
  | S remaining' =>
      let accountIndex := i + accountOffset in
      let path := account_path accountIndex in
      match derivePath path seed with
      | inl e => inl (Sdk e)
      | inr derivedSeed =>
          match fromSeed derivedSeed with
          | inl e => inl (Sdk e)
          | inr keypair =>
              derive_loop seed accountOffset remaining' (i + 1) (wallets ++ [keypair])
          end
      end
  end.

(** [count] is an integral number; the loop [for (i = 0; i < count; i++)]
    runs [count] times, and not at all when [count <= 0]. *)
Definition deriveMultipleWallets (mnemonic : string) (count : Z) (accountOffset : option Z)
  : Thrown + list Keypair :=
  let accountOffset := match accountOffset with Some o => o | None => 0 end in
  if negb (validateMnemonic mnemonic) then inl InvalidMnemonic
  else
    let seed := mnemonicToSeedSync mnemonic in
    derive_loop seed accountOffset (Z.to_nat count) 0 [].

Definition createWalletFromPrivateKey (privateKeyString : string) : Error + Keypair :=
  match bs58_decode privateKeyString with
  | inl e => inl e
  | inr privateKeyBytes => fromSecretKey privateKeyBytes
  end.

End FromMnemonic.

End Wallet.

(* ===================================================================== *)
(** ** transferSPLToken *)
(* ===================================================================== *)

Module SplTransfer.

Section TransferSPLToken.
(** [Number] stands for the binary64 numbers of the script: the amount asked
    for and the balances shown.  The two computations the script makes with
    them are parameters, [scale] and [display]. *)
Context {Bytes Keypair PublicKey Blockhash Signature Ledger Error Number : Type}.

Inductive Instruction : Type :=
| CreateAssociatedTokenAccount (payer associatedToken owner mint : PublicKey)
| TransferInstruction (source destination owner : PublicKey) (amount : Z).

Record Transaction : Type := mkTransaction {
  instructions : list Instruction;
  feePayer : option PublicKey;
  recentBlockhash : option Blockhash
}.

Inductive Thrown : Type :=
| SdkError (e : Error)
| InvalidRecipient                                   (* 无效的接收者钱包地址 *)
| NoSenderTokenAccount (mint : string)               (* 发送者没有...代币的账户 *)
| InsufficientTokens (currentBalance amount : Number). (* 代币余额不足 *)

Inductive Action : Type :=
| GetMint (mint : PublicKey)
| GetAccount (account : PublicKey)
| GetLatestBlockhash
| SendAndConfirm (tx : Transaction).

Inductive Line : Type :=
| LineFetching (mint : string)
| LineDecimals (decimals : Z)
| LineBalance (currentBalance : Number)
| LineHasAccount
| LineWillCreate
| LineStart (amount : Number) (decimals : Z) (sender : PublicKey) (recipient : string)
| LineSuccess (signature : Signature)
| LineRecipientAccount (existed : bool) (account : string)
| LineFailed (error : Thrown).

Record Receipt : Type := mkReceipt {
  signature : Signature;
  decimals : Z;
  tokenAmount : Number;
  tokenAmountRaw : Z;
  recipientTokenAccount : string
}.

Record World : Type := mkWorld {
  ledger : Ledger;
  actions : list Action;
  printed : list Line
}.

Definition M (A : Type) : Type := World -> (Thrown + A) * World.

Definition ret {A} (a : A) : M A := fun w => (inr a, w).
Definition throw {A} (e : Thrown) : M A := fun w => (inl e, w).
Definition bind {A B} (m : M A) (k : A -> M B) : M B :=
  fun w =>
    match m w with
    | (inl e, w') => (inl e, w')
    | (inr a, w') => k a w'
    end.
Definition try_catch {A} (body : M A) (handler : Thrown -> M A) : M A :=
  fun w =>
    match body w with
    | (inl e, w') => handler e w'
    | r => r
    end.
Definition sdk {A} (r : Error + A) : M A :=
  match r with
  | inl e => throw (SdkError e)
  | inr a => ret a
  end.
Definition record (a : Action) : M unit :=
  fun w => (inr tt, mkWorld (ledger w) (actions w ++ [a]) (printed w)).
Definition print (l : Line) : M unit :=
  fun w => (inr tt, mkWorld (ledger w) (actions w) (printed w ++ [l])).
Definition read_ledger : M Ledger := fun w => (inr (ledger w), w).

Variable bs58_decode : string -> Error + Bytes.
Variable fromSecretKey : Bytes -> Error + Keypair.
Variable publicKey : Keypair -> PublicKey.
Variable newPublicKey : string -> Error + PublicKey.
Variable toString : PublicKey -> string.
Variable isOnCurve : PublicKey -> bool.
Variable getMint : Ledger -> PublicKey -> Error + Z.          (* its [decimals] *)
Variable getAssociatedTokenAddress : PublicKey -> PublicKey -> Error + PublicKey.
Variable getAccount : Ledger -> PublicKey -> Error + Z.       (* its [amount] *)
Variable getLatestBlockhash : Ledger -> Error + Blockhash.
Variable sendAndConfirmTransaction : Ledger -> Transaction -> (Error + Signature) * Ledger.
(** [BigInt(Math.floor(amount * Math.pow(10, decimals)))]; [BigInt] throws
    on a number that is not finite. *)
Variable scale : Number -> Z -> Error + Z.
(** [Number(raw) / Math.pow(10, decimals)] *)
Variable display : Z -> Z -> Number.

Local Notation "x <- m ;; k" := (bind m (fun x => k))
  (at level 100, m at next level, right associativity).
Local Notation "m ;;; k" := (bind m (fun _ => k))
  (at level 100, k at level 200, right associativity).

Definition transferSPLToken (secretKey recipientAddress tokenMintAddress : string)
    (amount : Number) : M Receipt :=
  try_catch
    (decodedSecretKey <- sdk (bs58_decode secretKey) ;;
     senderKeypair <- sdk (fromSecretKey decodedSecretKey) ;;
     recipientPublicKey <- sdk (newPublicKey recipientAddress) ;;
     tokenMintPublicKey <- sdk (newPublicKey tokenMintAddress) ;;
     (if negb (isOnCurve recipientPublicKey) then throw InvalidRecipient else ret tt) ;;;
     print (LineFetching tokenMintAddress) ;;;
     chain <- read_ledger ;;
     record (GetMint tokenMintPublicKey) ;;;
     decimals <- sdk (getMint chain tokenMintPublicKey) ;;
     print (LineDecimals decimals) ;;;
     senderTokenAccount <-
       sdk (getAssociatedTokenAddress tokenMintPublicKey (publicKey senderKeypair)) ;;
     record (GetAccount senderTokenAccount) ;;;
     senderAmount <-
       match getAccount chain senderTokenAccount with
       | inl _ => throw (NoSenderTokenAccount tokenMintAddress)
       | inr amount => ret amount
       end ;;
     tokenAmountBigInt <- sdk (scale amount decimals) ;;
     let currentBalance := display senderAmount decimals in
     (if senderAmount <? tokenAmountBigInt
      then throw (InsufficientTokens currentBalance amount)
      else ret tt) ;;;
     print (LineBalance currentBalance) ;;;
     recipientTokenAccount <-
       sdk (getAssociatedTokenAddress tokenMintPublicKey recipientPublicKey) ;;
     record (GetAccount recipientTokenAccount) ;;;
     checked <-
       match getAccount chain recipientTokenAccount with
       | inr _ => print LineHasAccount ;;; ret (true, [])
       | inl _ =>
           print LineWillCreate ;;;
           ret (false,
                [CreateAssociatedTokenAccount (publicKey senderKeypair)
                   recipientTokenAccount recipientPublicKey tokenMintPublicKey])
       end ;;
     let recipientHasAccount : bool := fst checked in
     let created : list Instruction := snd checked in
     print (LineStart amount decimals (publicKey senderKeypair) recipientAddress) ;;;
     let added :=
       created ++ [TransferInstruction senderTokenAccount recipientTokenAccount
                     (publicKey senderKeypair) tokenAmountBigInt] in
     record GetLatestBlockhash ;;;
     blockhash <- sdk (getLatestBlockhash chain) ;;
     let transaction :=
       mkTransaction added (Some (publicKey senderKeypair)) (Some blockhash) in
     record (SendAndConfirm transaction) ;;;
     signature <-
       (fun w =>
          let '(r, chain') := sendAndConfirmTransaction (ledger w) transaction in
          sdk r (mkWorld chain' (actions w) (printed w))) ;;
     print (LineSuccess signature) ;;;
     print (LineRecipientAccount recipientHasAccount (toString recipientTokenAccount)) ;;;
     ret (mkReceipt signature decimals amount tokenAmountBigInt
                    (toString recipientTokenAccount)))
    (fun error => print (LineFailed error) ;;; throw error).

End TransferSPLToken.

End SplTransfer.

(* ===================================================================== *)
(** ** getWalletBalances *)
(* ===================================================================== *)

Module WalletInfo.

Section GetWalletBalances.
(** [Number] stands for the binary64 numbers the script prints; the two
    divisions that produce them are the parameters [toSol] and [display]. *)
Context {PublicKey Error Number : Type}.

(** An entry of [getParsedTokenAccountsByOwner]: the account's address and,
    from its parsed data, the mint and the token amount (a string of decimal
    digits in the response, a natural number here) with its decimals. *)
Record ParsedTokenAccount : Type := mkParsed {
  pubkey : PublicKey;
  mint : string;
  amount : Z;
  decimals : Z
}.

Inductive Line : Type :=
| LineSol (solBalance : Number)
| LineFound (count : nat)
| LineSeparator
| LineNoTokens
| LineMint (mint : string)
| LineAmount (amount : Number) (decimals : Z)
| LineTokenAccount (account : string)
| LineError (error : Error).

Variable newPublicKey : string -> Error + PublicKey.
Variable toString : PublicKey -> string.
Variable getBalance : PublicKey -> Error + Z.
Variable getParsedTokenAccountsByOwner : PublicKey -> Error + list ParsedTokenAccount.
Variable toSol : Z -> Number.          (* lamportBalance / LAMPORTS_PER_SOL *)
Variable display : Z -> Z -> Number.   (* Number(amount) / Math.pow(10, decimals) *)

(** [Number(tokenAmount.amount) > 0] *)
Definition positive (tokenAccount : ParsedTokenAccount) : bool := 0 <? amount tokenAccount.

(** The body of the [forEach] callback: what is printed for one account. *)
Definition show (printed : list Line) (tokenAccount : ParsedTokenAccount) : list Line :=
  if positive tokenAccount
  then printed
       ++ [LineMint (mint tokenAccount);
           LineAmount (display (amount tokenAccount) (decimals tokenAccount))
                      (decimals tokenAccount);
           LineTokenAccount (toString (pubkey tokenAccount));
           LineSeparator]
  else printed.

(** The function never throws: its [catch] prints the error.  The result is
    what it has printed. *)
Definition getWalletBalances (walletAddress : string) : list Line :=
  match newPublicKey walletAddress with
  | inl error => [LineError error]
  | inr publicKey =>
      match getBalance publicKey with
      | inl error => [LineError error]
      | inr lamportBalance =>
          let printed := [LineSol (toSol lamportBalance)] in
          match getParsedTokenAccountsByOwner publicKey with
          | inl error => printed ++ [LineError error]
          | inr tokenAccounts =>
              let printed :=
                printed ++ [LineFound (length (List.filter positive tokenAccounts));
                            LineSeparator] in
              if (length tokenAccounts =? 0)%nat
              then printed ++ [LineNoTokens]
              else fold_left show tokenAccounts printed
          end
      end
  end.

(** The lines that open a token's entry. *)
Definition is_entry (l : Line) : bool :=
  match l with
  | LineMint _ => true
  | _ => false
  end.

End GetWalletBalances.

End WalletInfo.

(* ===================================================================== *)
(** ** A small cluster to run the transfer scripts on *)
(* ===================================================================== *)

(** Keys, addresses and signatures are strings; the ledger maps an owner to
    its lamports; an address is on the curve unless it starts with "pda". *)
Module Demo.

Definition Ledger : Type := string -> Z.

Definition chain : Ledger :=
  fun owner => if String.eqb owner "alice" then 2000000000 else 0.

Definition bs58_decode (text : string) : string + string :=
  if String.eqb text "" then inl "Non-base58 character"%string else inr text.
Definition fromSecretKey (bytes : string) : string + string := inr bytes.
Definition publicKey (keypair : string) : string := keypair.
Definition newPublicKey (text : string) : string + string :=
  if String.eqb text "" then inl "Invalid public key input"%string else inr text.
Definition isOnCurve (key : string) : bool := negb (String.prefix "pda" key).
Definition getBalance (l : Ledger) (owner : string) : string + Z := inr (l owner).
Definition getLatestBlockhash (l : Ledger) : string + string := inr "blockhash"%string.

(** A transfer instruction: sender, recipient and lamports.  As the SDK
    encodes the lamports as a 64-bit integer, a number with a fractional part
    is refused. *)
Definition Instruction : Type := string * string * Z.

Definition SystemProgram_transfer (fromPubkey toPubkey : string) (lamports : Binary64.float)
  : string + Instruction :=
  match Binary64.to_integer lamports with
  | Some n => inr (fromPubkey, toPubkey, n)
  | None => inl "RangeError: not an integer"%string
  end.

Definition Tx : Type :=
  Transfer.Transaction (PublicKey:=string) (Blockhash:=string) (Instruction:=Instruction).

(** The simulation reports whether the sender could pay; it does not throw. *)
Definition simulateTransaction (l : Ledger) (tx : Tx) : string + bool :=
  inr (forallb (fun '(fromPubkey, _, lamports) => lamports <=? l fromPubkey)
               (Transfer.instructions tx)).

(** Amounts of SOL as the caller writes them: [sol n d] is the literal
    [n / d]. *)
Definition sol (n d : Z) : Binary64.float :=
  Binary64.fdiv (Binary64.of_Z n) (Binary64.of_Z d).

Definition sendAndConfirmTransaction (l : Ledger) (tx : Tx) : (string + string) * Ledger :=
  (inr "signature"%string, l).

Definition transferSOL :=
  Transfer.transferSOL bs58_decode fromSecretKey publicKey newPublicKey isOnCurve
    getBalance SystemProgram_transfer getLatestBlockhash simulateTransaction
    sendAndConfirmTransaction.

(** Token accounts: an account address maps to its raw amount, if it exists.
    Amounts asked for are rationals here; [scale] takes the floor. *)
Definition TokenLedger : Type := string -> option Z.

Definition tokens : TokenLedger :=
  fun account => if String.eqb account "alice/usdc" then Some 5000000 else None.

Definition toString (key : string) : string := key.
Definition getMint (l : TokenLedger) (mint : string) : string + Z :=
  if String.eqb mint "usdc" then inr 6 else inl "mint not found"%string.
Definition getAssociatedTokenAddress (mint owner : string) : string + string :=
  inr (owner ++ "/" ++ mint)%string.
Definition getAccount (l : TokenLedger) (account : string) : string + Z :=
  match l account with
  | Some amount => inr amount
  | None => inl "TokenAccountNotFoundError"%string
  end.
Definition tokenBlockhash (l : TokenLedger) : string + string := inr "blockhash"%string.
Definition scale (amount : Q) (decimals : Z) : string + Z :=
  inr (Qfloor (amount * inject_Z (10 ^ decimals))).
Definition display (raw decimals : Z) : Q := (inject_Z raw / inject_Z (10 ^ decimals))%Q.

Definition TokenTx : Type :=
  SplTransfer.Transaction (PublicKey:=string) (Blockhash:=string).

Definition sendTokens (l : TokenLedger) (tx : TokenTx) : (string + string) * TokenLedger :=
  (inr "signature"%string, l).

Definition transferSPLToken :=
  SplTransfer.transferSPLToken bs58_decode fromSecretKey publicKey newPublicKey toString
    isOnCurve getMint getAssociatedTokenAddress getAccount tokenBlockhash sendTokens
    scale display.

Definition tokenWorld
  : SplTransfer.World (PublicKey:=string) (Blockhash:=string) (Signature:=string)
                      (Ledger:=TokenLedger) (Error:=string) (Number:=Q) :=
  SplTransfer.mkWorld tokens [] [].

Definition world
  : Transfer.World (PublicKey:=string) (Blockhash:=string) (Signature:=string)
                   (Simulation:=bool) (Error:=string) (Instruction:=Instruction) :=
  Transfer.mkWorld chain [] [].

End Demo.

(* ===================================================================== *)
(** * Properties *)
(* ===================================================================== *)

(** ** Strings *)

Section StringFacts.
Local Open Scope string_scope.

Lemma toLowerCase_append (a b : string) :
  JS.toLowerCase (a ++ b) = JS.toLowerCase a ++ JS.toLowerCase b.
Proof. induction a as [|c a IH]; simpl; [reflexivity | now rewrite IH]. Qed.

Lemma toLowerCase_length (s : string) :
  String.length (JS.toLowerCase s) = String.length s.
Proof. induction s as [|c s IH]; simpl; [reflexivity | now rewrite IH]. Qed.

(** A split of the lowered text is the image of a split of the text. *)
Lemma toLowerCase_split (s x y : string) :
  JS.toLowerCase s = x ++ y ->
  exists a b, s = a ++ b /\ JS.toLowerCase a = x /\ JS.toLowerCase b = y.
Proof.
  revert x. induction s as [|c s IH]; intros x H.
  - destruct x; simpl in H; [|discriminate].
    exists "", "". simpl. repeat split; congruence.
  - destruct x as [|d x]; simpl in H.
    + exists "", (String c s). simpl. repeat split; congruence.
    + injection H as Hc Hs. destruct (IH _ Hs) as (a & b & -> & Ha & Hb).
      exists (String c a), b. simpl. repeat split; congruence.
Qed.

Lemma startsWith_iff (s p : string) :
  JS.startsWith s p = true <-> exists rest, s = p ++ rest.
Proof.
  unfold JS.startsWith. revert s.
  induction p as [|a p IH]; intros s; simpl.
  - destruct s; simpl; split; eauto.
  - destruct s as [|b s]; simpl.
    + split; [discriminate | intros [r Hr]; discriminate].
    + destruct (ascii_dec a b) as [->|Hne].
      * rewrite IH. split; intros [r Hr]; exists r; congruence.
      * split; [discriminate | intros [r Hr]; congruence].
Qed.

Lemma substring_skip (a b : string) (m : nat) :
  substring (String.length a) m (a ++ b) = substring 0 m b.
Proof. induction a as [|c a IH]; simpl; auto. Qed.

Lemma substring_whole (p : string) : substring 0 (String.length p) p = p.
Proof. induction p as [|c p IH]; simpl; congruence. Qed.

Lemma append_length (a b : string) :
  String.length (a ++ b) = (String.length a + String.length b)%nat.
Proof. induction a as [|c a IH]; simpl; congruence. Qed.

Lemma substring_cut (s : string) (n : nat) :
  (n <= String.length s)%nat ->
  s = substring 0 n s ++ substring n (String.length s - n) s.
Proof.
  revert n. induction s as [|c s IH]; intros n Hn; simpl in *.
  - destruct n; [reflexivity | lia].
  - destruct n as [|n]; simpl.
    + now rewrite substring_whole.
    + f_equal. apply IH. lia.
Qed.

Lemma endsWith_iff (s p : string) :
  JS.endsWith s p = true <-> exists pre, s = pre ++ p.
Proof.
  unfold JS.endsWith. split.
  - destruct (Nat.ltb_spec (String.length s) (String.length p)) as [|Hle];
      [discriminate|].
    intros H%String.eqb_eq.
    exists (substring 0 (String.length s - String.length p) s).
    pose proof (substring_cut s (String.length s - String.length p)) as Hcut.
    replace (String.length s - (String.length s - String.length p))%nat
      with (String.length p) in Hcut by lia.
    rewrite H in Hcut. apply Hcut. lia.
  - intros [pre ->]. rewrite append_length.
    destruct (Nat.ltb_spec (String.length pre + String.length p) (String.length p));
      [lia|].
    replace (String.length pre + String.length p - String.length p)%nat
      with (String.length pre) by lia.
    rewrite substring_skip, substring_whole. apply String.eqb_refl.
Qed.

Lemma truthy_true (s : string) : JS.truthy s = true <-> s <> "".
Proof.
  unfold JS.truthy. destruct (String.eqb_spec s ""); simpl; split; congruence.
Qed.

Lemma truthy_toLowerCase (s : string) : JS.truthy (JS.toLowerCase s) = JS.truthy s.
Proof. destruct s; reflexivity. Qed.

End StringFacts.

(** ** The worker's test and the requested pattern *)

Section CheckAddress.
Local Open Scope string_scope.

Lemma presearch_truthy (cs : bool) (p : string) :
  p <> "" -> presearch cs (Some p) = (if cs then p else JS.toLowerCase p)
             /\ JS.truthy (presearch cs (Some p)) = true.
Proof.
  intros Hp%truthy_true. unfold presearch. rewrite Hp.
  destruct cs; [|rewrite truthy_toLowerCase]; auto.
Qed.

Lemma presearch_falsy (cs : bool) (pat : option string) :
  (forall p, pat = Some p -> p = "") -> presearch cs pat = "".
Proof.
  destruct pat as [p|]; [|reflexivity].
  intros H. rewrite (H p eq_refl). reflexivity.
Qed.

Lemma startsWith_begins (cs : bool) (p a : string) :
  JS.startsWith (if cs then a else JS.toLowerCase a)
                (if cs then p else JS.toLowerCase p) = true
  <-> Spec.begins_with cs p a.
Proof.
  rewrite startsWith_iff. unfold Spec.begins_with, Spec.agrees, Spec.same_letters.
  destruct cs.
  - split.
    + intros [rest ->]. now exists p, rest.
    + intros (head & rest & -> & ->). now exists rest.
  - split.
    + intros [rest H]. apply toLowerCase_split in H as (h & r & -> & Hh & _).
      now exists h, r.
    + intros (head & rest & -> & Hh). exists (JS.toLowerCase rest).
      now rewrite toLowerCase_append, Hh.
Qed.

Lemma endsWith_ends (cs : bool) (p a : string) :
  JS.endsWith (if cs then a else JS.toLowerCase a)
              (if cs then p else JS.toLowerCase p) = true
  <-> Spec.ends_with cs p a.
Proof.
  rewrite endsWith_iff. unfold Spec.ends_with, Spec.agrees, Spec.same_letters.
  destruct cs.
  - split.
    + intros [pre ->]. now exists pre, p.
    + intros (rest & tail & -> & ->). now exists rest.
  - split.
    + intros [pre H]. apply toLowerCase_split in H as (r & t & -> & _ & Ht).
      now exists r, t.
    + intros (rest & tail & -> & Ht). exists (JS.toLowerCase rest).
      now rewrite toLowerCase_append, Ht.
Qed.

(** One of the two guards of [checkAddress] lets the address through exactly
    when the address meets that part of the request. *)
Lemma guard_passes (cs : bool) (pat : option string) (a : string)
    (test : string -> string -> bool) (meets : bool -> string -> string -> Prop) :
  (forall p, test (if cs then a else JS.toLowerCase a)
                  (if cs then p else JS.toLowerCase p) = true <-> meets cs p a) ->
  JS.truthy (presearch cs pat)
    && negb (test (if cs then a else JS.toLowerCase a) (presearch cs pat)) = false
  <-> (forall p, pat = Some p -> p <> "" -> meets cs p a).
Proof.
  intros Htest.
  destruct pat as [p|].
  - destruct (String.eqb_spec p "") as [->|Hp].
    + simpl. split; [|reflexivity]. intros _ q [= <-] Hq. now destruct Hq.
    + destruct (presearch_truthy cs p Hp) as [-> Ht'].
      pose proof (presearch_truthy cs p Hp) as [Heq Ht]. rewrite Heq in Ht.
      rewrite Ht. simpl. rewrite negb_false_iff, Htest.
      split; [intros H q [= <-] _; exact H | intros H; now apply H].
  - simpl. split; [|reflexivity]. intros _ q [=].
Qed.

Lemma checkAddress_satisfies (wd : WorkerData) (address : string) :
  checkAddress wd address = true
  <-> Spec.satisfies (wd_caseSensitive wd) (wd_prefix wd) (wd_suffix wd) address.
Proof.
  unfold checkAddress, Spec.satisfies, searchPrefix, searchSuffix.
  rewrite <- (guard_passes _ _ _ JS.startsWith Spec.begins_with)
    by (intros; apply startsWith_begins).
  rewrite <- (guard_passes _ _ _ JS.endsWith Spec.ends_with)
    by (intros; apply endsWith_ends).
  destruct (JS.truthy _ && negb (JS.startsWith _ _));
    destruct (JS.truthy _ && negb (JS.endsWith _ _)); intuition congruence.
Qed.

End CheckAddress.

(** ** The coordinator's event loop *)

Create HintDb vanity.

Ltac step_cases ev :=
  destruct ev as [? [? ? ?|?]|?|? ?| |?]; simpl.

Section CoordinatorFacts.
Context {Secret : Type}.
Implicit Types (st : State Secret) (ev : Event Secret) (evs : list (Event Secret)).

Lemma run_app st evs evs' : run st (evs ++ evs') = run (run st evs) evs'.
Proof. apply fold_left_app. Qed.

Lemma run_cons st ev evs : run st (ev :: evs) = run (step st ev) evs.
Proof. reflexivity. Qed.

Lemma resolve_settled (k : Secret) (p : Promise Secret) : p <> Pending -> resolve k p = p.
Proof. destruct p; simpl; congruence. Qed.

Lemma reject_settled (e : Failure) (p : Promise Secret) : p <> Pending -> reject e p = p.
Proof. destruct p; simpl; congruence. Qed.

#[local] Hint Resolve resolve_settled reject_settled : vanity.

(** No turn of the event loop changes a settled promise. *)
Lemma step_settled st ev : promise st <> Pending -> promise (step st ev) = promise st.
Proof.
  intros Hs. step_cases ev; auto.
  - destruct (walletFound st); simpl; auto with vanity.
  - unfold on_exit. destruct (_ && _); reflexivity.
  - destruct (timeoutId st); simpl; auto with vanity.
  - destruct (updateInterval st); reflexivity.
Qed.

Lemma run_settled st evs : promise st <> Pending -> promise (run st evs) = promise st.
Proof.
  revert st. induction evs as [|ev evs IH]; intros st Hs; [reflexivity|].
  rewrite run_cons, IH; rewrite step_settled; auto.
Qed.

Lemma resolve_not_pending (k : Secret) (p : Promise Secret) : resolve k p <> Pending.
Proof. destruct p; simpl; congruence. Qed.

Lemma clearTimeout_not_armed (t : Timer) (ms : Z) : clearTimeout t <> Armed ms.
Proof. destruct t; simpl; congruence. Qed.

Lemma step_found_inv st ev : found_inv st -> found_inv (step st ev).
Proof.
  unfold found_inv. intros Hinv. step_cases ev.
  - destruct (walletFound st) eqn:Hf; simpl; auto.
    intros _. auto using resolve_not_pending, clearTimeout_not_armed.
  - exact Hinv.
  - exact Hinv.
  - unfold on_exit. destruct (_ && _); simpl; auto.
  - case_eq (timeoutId st); [intros _|intros ms Ht|intros _|intros _]; simpl; auto.
    intros Hf. destruct (Hinv Hf) as (_ & Hna & _). now destruct (Hna ms).
  - case_eq (updateInterval st); intros _; simpl; auto.
Qed.

Lemma run_found_inv st evs : found_inv st -> found_inv (run st evs).
Proof.
  revert st. induction evs as [|ev evs IH]; intros st Hs; [exact Hs|].
  rewrite run_cons. auto using step_found_inv.
Qed.

Lemma initial_state (env : Env) (options : Options) (st0 : State Secret) :
  generateVanityWallet env options = inr st0 ->
  walletFound st0 = false
  /\ promise st0 = Pending
  /\ totalAttempts st0 = 0
  /\ timeoutId st0 = (if 0 <? or_default (timeout options) 60000
                      then Armed (or_default (timeout options) 60000) else NoTimer)
  /\ workers st0 =
       map (spawn options (requested_case options))
           (seq 0 (Z.to_nat (or_default (threadsCount options)
                                        (Z.max 1 (cpus_length env - 1))))).
Proof.
  unfold generateVanityWallet.
  destruct (negb (isMainThread env)); [discriminate|].
  destruct (_ && _); [discriminate|].
  intros [= <-]. simpl. auto.
Qed.

Lemma initial_found_inv (env : Env) (options : Options) (st0 : State Secret) :
  generateVanityWallet env options = inr st0 -> found_inv st0.
Proof.
  intros (Hf & _)%initial_state. unfold found_inv. congruence.
Qed.

(** A resolved promise holds the secret key of a [found] report that was
    delivered. *)
Lemma step_resolved st ev (k : Secret) :
  promise (step st ev) = Resolved k ->
  promise st = Resolved k
  \/ exists i pk a, ev = EvMessage i (MsgFound pk k a).
Proof.
  step_cases ev; auto.
  - destruct (walletFound st); simpl; auto.
    destruct (promise st) eqn:Hp; simpl; auto.
    intros [= <-]. right. eauto.
  - unfold on_exit. destruct (_ && _); simpl; auto.
  - destruct (timeoutId st); simpl; auto.
    destruct (promise st); simpl; auto. discriminate.
  - destruct (updateInterval st); simpl; auto.
Qed.

Lemma run_resolved st evs (k : Secret) :
  promise (run st evs) = Resolved k ->
  promise st = Resolved k
  \/ exists i pk a, In (EvMessage i (MsgFound pk k a)) evs.
Proof.
  revert st. induction evs as [|ev evs IH]; intros st H; [now left|].
  rewrite run_cons in H. destruct (IH _ H) as [H'|(i & pk & a & Hin)].
  - destruct (step_resolved _ _ _ H') as [?|(i & pk & a & ->)]; auto.
    right. exists i, pk, a. now left.
  - right. exists i, pk, a. now right.
Qed.

End CoordinatorFacts.

Section WorkerFacts.
Context {Secret : Type} (address_of : Secret -> string).

(** A worker reports only a key pair whose address passed its test. *)
Lemma worker_loop_found (wd : WorkerData) (generated : list Secret) (n : Z)
    (pk : string) (k : Secret) (a : Z) :
  In (MsgFound pk k a) (worker_loop address_of wd generated n) ->
  pk = address_of k /\ checkAddress wd (address_of k) = true.
Proof.
  revert n. induction generated as [|g later IH]; intros n; simpl; [tauto|].
  destruct (checkAddress wd (address_of g)) eqn:Hc.
  - intros [[= <- <- <-]|[]]. auto.
  - rewrite in_app_iff. intros [H|H]; [|eauto].
    destruct (_ =? _); simpl in H; [destruct H as [H|[]]; discriminate | tauto].
Qed.

(** Every progress report carries the batch size. *)
Lemma worker_loop_progress (wd : WorkerData) (generated : list Secret) (n a : Z) :
  In (MsgProgress a) (worker_loop address_of wd generated n) -> a = progressInterval.
Proof.
  revert n. induction generated as [|g later IH]; intros n; simpl; [tauto|].
  destruct (checkAddress wd (address_of g)).
  - intros [H|[]]. discriminate.
  - rewrite in_app_iff. intros [H|H]; [|eauto].
    destruct (_ =? _); simpl in H; [destruct H as [[= <-]|[]]; reflexivity | tauto].
Qed.

End WorkerFacts.

(** ** Vanity search: the result and the single outcome *)

(** C1.  Whenever the search resolves, the address of the key pair it
    resolves with satisfies the requested prefix and/or suffix under the
    requested case sensitivity (exact text when case-sensitive, any
    letter-casing otherwise); and the worker's test accepts exactly the
    addresses that satisfy the request, so with [caseSensitive = false] an
    address matching the pattern in any letter-casing is accepted. *)
Theorem found_address_satisfies_request :
  forall (Secret : Type) (address_of : Secret -> string)
         (env : Env) (options : Options) (st0 : State Secret)
         (evs : list (Event Secret)) (keypair : Secret),
    generateVanityWallet env options = inr st0 ->
    posted_by_workers address_of (workers st0) evs ->
    promise (run st0 evs) = Resolved keypair ->
    Spec.satisfies (requested_case options) (prefix options) (suffix options)
                   (address_of keypair)
    /\ (forall w address,
          In w (workers st0) ->
          (checkAddress (workerData w) address = true
           <-> Spec.satisfies (requested_case options) (prefix options)
                              (suffix options) address)).
Proof.
  intros Secret address_of env options st0 evs keypair Hgen Hposted Hres.
  destruct (initial_state _ _ _ Hgen) as (_ & Hpending & _ & _ & Hworkers).
  assert (Hdata : forall w, In w (workers st0) ->
            wd_prefix (workerData w) = prefix options
            /\ wd_suffix (workerData w) = suffix options
            /\ wd_caseSensitive (workerData w) = requested_case options).
  { intros w Hin. rewrite Hworkers in Hin.
    apply in_map_iff in Hin as (j & <- & _). simpl. auto. }
  assert (Hiff : forall w address, In w (workers st0) ->
            (checkAddress (workerData w) address = true
             <-> Spec.satisfies (requested_case options) (prefix options)
                                (suffix options) address)).
  { intros w address Hin. destruct (Hdata w Hin) as (Hp & Hs & Hc).
    rewrite checkAddress_satisfies, Hp, Hs, Hc. reflexivity. }
  split; [|exact Hiff].
  apply run_resolved in Hres as [Hp|(i & pk & a & Hin)]; [congruence|].
  destruct (Hposted _ _ Hin) as (w & generated & Hw & Hmsg).
  apply worker_loop_found in Hmsg as [_ Hcheck].
  apply (Hiff w); [|exact Hcheck].
  apply list_elem_of_In. eapply list_elem_of_lookup_2. exact Hw.
Qed.

Lemma found_address_satisfies_request_witness :
  Spec.satisfies true (Some "So"%string) None "SoLx"%string.
Proof.
  refine (proj1 (found_address_satisfies_request
                   string (fun s => s)
                   (mkEnv true 8 0)
                   (mkOptions (Some "So"%string) None None (Some 2) None)
                   _
                   [EvMessage 1 (MsgProgress 1000);
                    EvMessage 0 (MsgFound "SoLx"%string "SoLx"%string 3)]
                   "SoLx"%string eq_refl _ eq_refl)).
  intros i message [H|[H|[]]]; inversion H; subst; simpl.
  - exists (mkWorker (mkWorkerData (Some "So"%string) None true 1) false),
           (repeat "x"%string 1000).
    split; [reflexivity|]. vm_compute. auto 2000.
  - exists (mkWorker (mkWorkerData (Some "So"%string) None true 0) false),
           ["a"%string; "so"%string; "SoLx"%string].
    split; [reflexivity|]. simpl. auto.
Defined.

(** With [caseSensitive = true] the prefix "So" does not accept an address
    that starts with "so"; with [caseSensitive = false] it does. *)
Example prefix_So_case (rest : string) :
  checkAddress (mkWorkerData (Some "So"%string) None true 0) ("so" ++ rest)%string = false
  /\ checkAddress (mkWorkerData (Some "So"%string) None false 0) ("so" ++ rest)%string = true
  /\ checkAddress (mkWorkerData (Some "So"%string) None false 0) ("sO" ++ rest)%string = true.
Proof. repeat split; destruct rest; reflexivity. Qed.

Section SingleOutcome.
Context {Secret : Type}.
Implicit Types (st : State Secret) (ev : Event Secret) (evs : list (Event Secret)).

Lemma step_walletFound st ev : walletFound st = true -> walletFound (step st ev) = true.
Proof.
  intros Hf. step_cases ev; auto.
  - rewrite Hf. exact Hf.
  - unfold on_exit. destruct (_ && _); exact Hf.
  - destruct (timeoutId st); exact Hf.
  - destruct (updateInterval st); exact Hf.
Qed.

Lemma run_walletFound st evs : walletFound st = true -> walletFound (run st evs) = true.
Proof.
  revert st. induction evs as [|ev evs IH]; intros st Hf; [exact Hf|].
  rewrite run_cons. auto using step_walletFound.
Qed.

(** After a match was honoured, a further [found] report changes nothing. *)
Lemma second_match_discarded st i pk (sk : Secret) a :
  walletFound st = true -> step st (EvMessage i (MsgFound pk sk a)) = st.
Proof. intros Hf. simpl. now rewrite Hf. Qed.

(** With no timer left to fire, the timeout event runs no callback. *)
Lemma cleared_timer_silent st :
  (forall ms, timeoutId st <> Armed ms) -> step st EvTimeout = st.
Proof. intros Hna. simpl. destruct (timeoutId st) as [|ms| |]; auto. now destruct (Hna ms). Qed.

End SingleOutcome.

(** C2.  A search has one outcome.  Whatever was delivered before, a settled
    promise is never changed by later events; and when the search is still
    running and a [found] report arrives, that report resolves the search
    with its key pair, after which every further [found] report (from any
    worker, also one delivered right after it) leaves the whole state
    untouched, a timeout event is a no-op because the timer was cleared, and
    even the body of the timeout callback could not change the outcome. *)
Theorem search_settles_once :
  forall (Secret : Type) (env : Env) (options : Options) (st0 : State Secret)
         (before after : list (Event Secret)),
    generateVanityWallet env options = inr st0 ->
    let st := run st0 before in
    (promise st <> Pending -> promise (run st after) = promise st)
    /\ (forall i pk sk a,
          walletFound st = false ->
          promise st = Pending ->
          let found := step st (EvMessage i (MsgFound pk sk a)) in
          let later := run found after in
          promise found = Resolved sk
          /\ promise later = Resolved sk
          /\ (forall j pk' sk' a', step later (EvMessage j (MsgFound pk' sk' a')) = later)
          /\ step later EvTimeout = later
          /\ (forall ms, promise (timeoutHandler ms later) = Resolved sk)).
Proof.
  intros Secret env options st0 before after Hgen st.
  split; [apply run_settled|].
  intros i pk sk a Hnf Hpending found later.
  assert (Hfound : promise found = Resolved sk).
  { subst found. simpl. now rewrite Hnf, Hpending. }
  assert (Hflag : walletFound later = true).
  { apply run_walletFound. subst found. simpl. now rewrite Hnf. }
  assert (Hlater : promise later = Resolved sk).
  { subst later. rewrite run_settled; congruence. }
  assert (Hinv : found_inv later).
  { subst later found st. rewrite <- run_cons, <- run_app.
    apply run_found_inv. eapply initial_found_inv, Hgen. }
  destruct (Hinv Hflag) as (_ & Hna & _).
  repeat split; auto.
  - intros. now apply second_match_discarded.
  - now apply cleared_timer_silent.
  - intros ms. simpl. now rewrite Hlater.
Qed.

Lemma search_settles_once_witness :
  let st0 : State string :=
    mkState false 0 0 true (Armed 60000)
            [mkWorker (mkWorkerData (Some "So"%string) None true 0) false;
             mkWorker (mkWorkerData (Some "So"%string) None true 1) false]
            Pending [OutStart 2 true; OutPrefix "So"%string] in
  let first := EvMessage 0 (MsgFound "SoA"%string "SoA"%string 7) in
  let second := EvMessage 1 (MsgFound "SoB"%string "SoB"%string 9) in
  promise (run st0 [EvMessage 1 (MsgProgress 1000); first; second; EvTimeout])
  = Resolved "SoA"%string.
Proof.
  intros st0 first second.
  pose proof (search_settles_once string (mkEnv true 3 0)
                (mkOptions (Some "So"%string) None None None None) st0
                [EvMessage 1 (MsgProgress 1000)] [second; EvTimeout] eq_refl) as H.
  destruct H as [_ H].
  exact (proj1 (proj2 (H 0%nat "SoA"%string "SoA"%string 7 eq_refl eq_refl))).
Defined.

(** ** Vanity search: validation, defaults and the timeout *)

Lemma truthy_opt_false (o : option string) :
  JS.truthy_opt o = false <-> o = None \/ o = Some EmptyString.
Proof.
  destruct o as [s|]; simpl.
  - unfold JS.truthy. destruct (String.eqb_spec s EmptyString); simpl.
    + subst. intuition.
    + split; [discriminate|]. intros [H|[= H]]; congruence.
  - intuition.
Qed.

(** C5.  A request with neither prefix nor suffix (each absent or empty)
    makes the call throw the invalid-request error before the promise
    executor runs: no state is set up and no worker is created. *)
Theorem no_pattern_is_rejected :
  forall (Secret : Type) (env : Env) (options : Options),
    isMainThread env = true ->
    (prefix options = None \/ prefix options = Some EmptyString) ->
    (suffix options = None \/ suffix options = Some EmptyString) ->
    @generateVanityWallet Secret env options = inl InvalidRequest
    /\ spawned (@generateVanityWallet Secret env options) = [].
Proof.
  intros Secret env options Hmain Hp%truthy_opt_false Hs%truthy_opt_false.
  assert (H : @generateVanityWallet Secret env options = inl InvalidRequest).
  { unfold generateVanityWallet. now rewrite Hmain, Hp, Hs. }
  now rewrite H.
Qed.

Lemma no_pattern_is_rejected_witness :
  @generateVanityWallet string (mkEnv true 8 1700000000000)
     (mkOptions None (Some EmptyString) (Some false) (Some 4) (Some 5000))
  = inl InvalidRequest.
Proof.
  apply (no_pattern_is_rejected string (mkEnv true 8 1700000000000)
           (mkOptions None (Some EmptyString) (Some false) (Some 4) (Some 5000))).
  - reflexivity.
  - left. reflexivity.
  - right. reflexivity.
Defined.

(** Off the main thread the call throws its first error, whatever the
    request; no worker is created there either. *)
Lemma off_main_thread_is_rejected (Secret : Type) (env : Env) (options : Options) :
  isMainThread env = false ->
  @generateVanityWallet Secret env options = inl NotMainThread.
Proof. intros H. unfold generateVanityWallet. now rewrite H. Qed.

(** A request that passes both checks sets the search up. *)
Lemma accepted_request (Secret : Type) (env : Env) (options : Options) :
  isMainThread env = true ->
  JS.truthy_opt (prefix options) || JS.truthy_opt (suffix options) = true ->
  exists st0 : State Secret, generateVanityWallet env options = inr st0.
Proof.
  intros Hmain Hpat. unfold generateVanityWallet. rewrite Hmain. simpl.
  destruct (JS.truthy_opt (prefix options)), (JS.truthy_opt (suffix options));
    simpl in *; try discriminate; eauto.
Qed.

(** C8.  Defaults.  For a request the call accepts: when [threadsCount] is
    not given, the number of workers created is the number of CPUs minus
    one, and at least 1; when [caseSensitive] is not given, every worker is
    told to compare case-sensitively. *)
Theorem defaults_applied :
  forall (Secret : Type) (env : Env) (options : Options) (st0 : State Secret),
    generateVanityWallet env options = inr st0 ->
    (threadsCount options = None ->
       Z.of_nat (length (workers st0)) = Z.max 1 (cpus_length env - 1))
    /\ (caseSensitive options = None ->
          forall w, In w (workers st0) -> wd_caseSensitive (workerData w) = true).
Proof.
  intros Secret env options st0 Hgen.
  destruct (initial_state _ _ _ Hgen) as (_ & _ & _ & _ & Hworkers).
  rewrite Hworkers. split.
  - intros ->. simpl. rewrite length_map, length_seq. lia.
  - intros Hcs w (j & <- & _)%in_map_iff. simpl.
    unfold requested_case. now rewrite Hcs.
Qed.

Lemma defaults_applied_witness :
  let st0 : State string :=
    mkState false 0 5 true (Armed 60000)
            (map (spawn (mkOptions (Some "ab"%string) None None None None) true) (seq 0 7))
            Pending [OutStart 7 true; OutPrefix "ab"%string] in
  Z.of_nat (length (workers st0)) = Z.max 1 (8 - 1).
Proof.
  intros st0.
  exact (proj1 (defaults_applied string (mkEnv true 8 5)
                  (mkOptions (Some "ab"%string) None None None None) st0 eq_refl)
               eq_refl).
Defined.

Example defaults_single_cpu :
  length (spawned (@generateVanityWallet string (mkEnv true 1 0)
                     (mkOptions None (Some "z"%string) None None None))) = 1%nat.
Proof. reflexivity. Qed.

Lemma run_quiet {Secret} (st : State Secret) (evs : list (Event Secret)) :
  forallb quiet evs = true ->
  promise (run st evs) = promise st
  /\ timeoutId (run st evs) = timeoutId st
  /\ walletFound (run st evs) = walletFound st.
Proof.
  revert st. induction evs as [|ev evs IH]; intros st Hq; [auto|].
  simpl in Hq. apply andb_prop in Hq as [Hev Hq].
  rewrite run_cons. destruct (IH (step st ev) Hq) as (-> & -> & ->).
  step_cases ev; try discriminate; auto.
  - unfold on_exit. destruct (_ && _); auto.
  - destruct (updateInterval st); auto.
Qed.

(** X5.  The timeout half of C3 that the script does implement: a positive
    [timeout] of at most [TIMEOUT_MAX] milliseconds, the longest delay Node's
    [setTimeout] honours, arms a timer of that length, and when it fires
    before any match was reported the search is rejected with the timeout
    error. *)
Lemma positive_timeout_rejects (Secret : Type) (env : Env) (options : Options)
    (st0 : State Secret) (ms : Z) (evs : list (Event Secret)) :
  generateVanityWallet env options = inr st0 ->
  timeout options = Some ms ->
  0 < ms <= TIMEOUT_MAX ->
  forallb quiet evs = true ->
  timeoutId st0 = Armed ms
  /\ promise (run st0 (evs ++ [EvTimeout])) = Rejected Timeout.
Proof.
  intros Hgen Hms [Hpos _] Hq.
  destruct (initial_state _ _ _ Hgen) as (_ & Hpending & _ & Htimer & _).
  rewrite Hms in Htimer. simpl in Htimer.
  replace (ms =? 0) with false in Htimer by lia.
  replace (0 <? ms) with true in Htimer by lia.
  split; [exact Htimer|].
  rewrite run_app. destruct (run_quiet st0 evs Hq) as (Hp & Ht & _).
  simpl. rewrite Ht, Htimer. simpl. now rewrite Hp, Hpending.
Qed.

(** C3, at [timeout: 0].  The value 0 is replaced by the default before the
    guard [timeout > 0] is reached: a 60000 ms timer is armed, and when it
    fires with no match reported the search is rejected with the timeout
    error.  The search is therefore not unbounded. *)
Theorem timeout_zero_arms_default_timer :
  forall (Secret : Type) (env : Env) (options : Options) (st0 : State Secret)
         (evs : list (Event Secret)),
    generateVanityWallet env options = inr st0 ->
    timeout options = Some 0 ->
    forallb quiet evs = true ->
    timeoutId st0 = Armed 60000
    /\ promise (run st0 (evs ++ [EvTimeout])) = Rejected Timeout.
Proof.
  intros Secret env options st0 evs Hgen Hzero Hq.
  destruct (initial_state _ _ _ Hgen) as (_ & Hpending & _ & Htimer & _).
  rewrite Hzero in Htimer. simpl in Htimer.
  split; [exact Htimer|].
  rewrite run_app. destruct (run_quiet st0 evs Hq) as (Hp & Ht & _).
  simpl. rewrite Ht, Htimer. simpl. now rewrite Hp, Hpending.
Qed.

Lemma timeout_zero_arms_default_timer_witness :
  let st0 : State string :=
    mkState false 0 0 true (Armed 60000)
            [mkWorker (mkWorkerData (Some "so"%string) None true 0) false]
            Pending [OutStart 1 true; OutPrefix "so"%string] in
  timeoutId st0 = Armed 60000
  /\ promise (run st0 ([EvMessage 0 (MsgProgress 1000); EvTick 100] ++ [EvTimeout]))
     = Rejected Timeout.
Proof.
  intros st0.
  exact (timeout_zero_arms_default_timer string (mkEnv true 2 0)
           (mkOptions (Some "so"%string) None (Some true) (Some 1) (Some 0)) st0
           [EvMessage 0 (MsgProgress 1000); EvTick 100] eq_refl eq_refl eq_refl).
Defined.

(** Only a negative [timeout] reaches the branch without a timer. *)
Example negative_timeout_arms_nothing :
  exists st0 : State string,
    generateVanityWallet (mkEnv true 2 0)
      (mkOptions (Some "so"%string) None None (Some 1) (Some (-1))) = inr st0
    /\ timeoutId st0 = NoTimer
    /\ step st0 EvTimeout = st0.
Proof. eexists. split; [reflexivity|]. split; reflexivity. Qed.

Example absent_timeout_arms_default :
  exists st0 : State string,
    generateVanityWallet (mkEnv true 2 0)
      (mkOptions (Some "so"%string) None None (Some 1) None) = inr st0
    /\ timeoutId st0 = Armed 60000.
Proof. eexists. split; reflexivity. Qed.


(** ** Vanity search: the attempt count *)

Section Attempts.
Context {Secret : Type} (address_of : Secret -> string).

(** X4.  The running total never decreases, whatever the event loop delivers
    and in whatever order, as long as the messages are ones the workers
    posted. *)
Lemma totalAttempts_monotone (pool : list WorkerHandle) (st : State Secret)
    (evs : list (Event Secret)) :
  posted_by_workers address_of pool evs ->
  totalAttempts st <= totalAttempts (run st evs).
Proof.
  revert st. induction evs as [|ev evs IH]; intros st Hposted; [simpl; lia|].
  rewrite run_cons.
  assert (Hstep : totalAttempts st <= totalAttempts (step st ev)).
  { step_cases ev; try lia.
    - destruct (walletFound st); simpl; lia.
    - destruct (Hposted _ _ (or_introl eq_refl)) as (w & g & _ & Hin).
      apply worker_loop_progress in Hin. subst. unfold progressInterval. lia.
    - unfold on_exit. destruct (_ && _); simpl; lia.
    - destruct (timeoutId st); simpl; lia.
    - destruct (updateInterval st); simpl; lia. }
  etransitivity; [exact Hstep|]. apply IH.
  intros i m Hin. apply (Hposted i m). now right.
Qed.

Lemma batch_boundary (a : Z) :
  0 <= a ->
  (a + 1) / 1000 = a / 1000 + (if (a + 1) mod 1000 =? 0 then 1 else 0).
Proof.
  intros Ha. destruct ((a + 1) mod 1000 =? 0) eqn:Hm.
  - apply Z.eqb_eq in Hm. Z.div_mod_to_equations. lia.
  - apply Z.eqb_neq in Hm. Z.div_mod_to_equations. lia.
Qed.

(** A worker that misses [length misses] times and then hits, followed from
    local count [a], delivered to a coordinator that is still searching. *)
Lemma run_worker_loop (wd : WorkerData) (i : nat) (misses : list Secret) (hit : Secret) :
  Forall (fun k => checkAddress wd (address_of k) = false) misses ->
  checkAddress wd (address_of hit) = true ->
  forall (a : Z) (st : State Secret),
    0 <= a ->
    walletFound st = false ->
    promise st = Pending ->
    let n := Z.of_nat (length misses) in
    let batches := 1000 * ((a + n) / 1000 - a / 1000) in
    run st (map (EvMessage i) (worker_loop address_of wd (misses ++ [hit]) a))
    = mkState true (totalAttempts st + batches) (startTime st) false
              (clearTimeout (timeoutId st)) (map terminate (workers st))
              (Resolved hit)
              (console st ++ [OutFound (totalAttempts st + batches + (a + n + 1))]).
Proof.
  intros Hmiss Hhit. induction Hmiss as [|m misses Hm _ IH]; intros a st Ha Hnf Hp.
  - simpl. rewrite Hhit. simpl. rewrite Hnf, Hp. simpl.
    replace (a + Z.of_nat 0) with a by lia.
    replace (a / 1000 - a / 1000) with 0 by lia.
    f_equal; [lia | do 3 f_equal; lia].
  - cbn [app worker_loop]. rewrite Hm, map_app, run_app.
    pose proof (batch_boundary a Ha) as Hb.
    set (n := Z.of_nat (length misses)) in *.
    replace (Z.of_nat (length (m :: misses))) with (n + 1)
      by (subst n; cbn [length]; lia).
    cbv zeta in IH |- *.
    replace (a + (n + 1)) with (a + 1 + n) by lia.
    unfold progressInterval.
    destruct ((a + 1) mod 1000 =? 0).
    + cbn [map run fold_left step on_message].
      rewrite IH by (simpl; auto; lia). simpl.
      f_equal; [lia | do 3 f_equal; lia].
    + cbn [map run fold_left].
      rewrite IH by (auto; lia).
      f_equal; [lia | do 3 f_equal; lia].
Qed.

End Attempts.

(** C4, where it fails.  One worker tries [n] key pairs that do not match and
    then one that does; its messages reach a coordinator that has received
    nothing else.  The search resolves after [n + 1] attempts in all, the
    running total holds the [1000 * (n / 1000)] attempts that worker has
    already reported in batches, and the total written at completion adds the
    worker's whole local count to it: [1000 * (n / 1000) + (n + 1)].  From
    1000 misses on, the winner's reported batches are counted twice. *)
Theorem winner_batches_counted_twice :
  forall (Secret : Type) (address_of : Secret -> string)
         (env : Env) (options : Options) (st0 : State Secret)
         (i : nat) (w : WorkerHandle) (misses : list Secret) (hit : Secret),
    generateVanityWallet env options = inr st0 ->
    workers st0 !! i = Some w ->
    Forall (fun k => checkAddress (workerData w) (address_of k) = false) misses ->
    checkAddress (workerData w) (address_of hit) = true ->
    let n := Z.of_nat (length misses) in
    let st := run st0 (map (EvMessage i)
                           (workerScript address_of (workerData w) (misses ++ [hit]))) in
    promise st = Resolved hit
    /\ totalAttempts st = 1000 * (n / 1000)
    /\ console st = console st0 ++ [OutFound (1000 * (n / 1000) + (n + 1))].
Proof.
  intros Secret address_of env options st0 i w misses hit Hgen _ Hmiss Hhit n st.
  destruct (initial_state _ _ _ Hgen) as (Hnf & Hp & Htotal & _).
  subst st. unfold workerScript.
  rewrite (run_worker_loop address_of _ i misses hit Hmiss Hhit 0 st0) by (auto; lia).
  cbv zeta. fold n. rewrite Htotal.
  replace (0 + n) with n by lia. rewrite Z.div_0_l by lia.
  split; [reflexivity|]. split; simpl; [lia|]. do 3 f_equal. lia.
Qed.

Lemma winner_batches_counted_twice_witness :
  let st0 : State string :=
    mkState false 0 0 true (Armed 60000)
            [mkWorker (mkWorkerData (Some "so"%string) None true 0) false]
            Pending [OutStart 1 true; OutPrefix "so"%string] in
  let st := run st0 (map (EvMessage 0)
                         (workerScript (fun s => s)
                            (mkWorkerData (Some "so"%string) None true 0)
                            (repeat "x"%string 1000 ++ ["so1"%string]))) in
  promise st = Resolved "so1"%string
  /\ totalAttempts st = 1000
  /\ console st = [OutStart 1 true; OutPrefix "so"%string; OutFound 2001].
Proof.
  intros st0.
  refine (winner_batches_counted_twice string (fun s => s) (mkEnv true 2 0)
            (mkOptions (Some "so"%string) None (Some true) (Some 1) None) st0
            0%nat (mkWorker (mkWorkerData (Some "so"%string) None true 0) false)
            (repeat "x"%string 1000) "so1"%string eq_refl eq_refl _ eq_refl).
  apply List.Forall_forall. intros k Hk. apply repeat_spec in Hk. subst k. reflexivity.
Defined.

(** ** Vanity search: once there is an outcome *)

Section Stopping.
Context {Secret : Type}.
Implicit Types (st : State Secret) (ev : Event Secret) (evs : list (Event Secret)).

Lemma all_terminated (pool : list WorkerHandle) :
  Forall (fun w => terminated w = true) (map terminate pool).
Proof. induction pool; simpl; constructor; auto. Qed.

Lemma step_stopped_inv st ev : stopped_inv st -> stopped_inv (step st ev).
Proof.
  unfold stopped_inv. intros Hinv. step_cases ev.
  - case_eq (walletFound st); intros _; simpl; auto.
    intros _. split; [apply all_terminated | reflexivity].
  - exact Hinv.
  - intros Hs. destruct (Hinv Hs) as [Hall Hint]. split; [|exact Hint].
    destruct (walletFound st); simpl; [exact Hall|].
    apply Forall_alter; auto.
  - unfold on_exit. destruct (_ && _); simpl; auto.
  - case_eq (timeoutId st); intros; simpl; auto.
    split; [apply all_terminated | reflexivity].
  - case_eq (updateInterval st); intros _; simpl; auto.
Qed.

Lemma run_stopped_inv st evs : stopped_inv st -> stopped_inv (run st evs).
Proof.
  revert st. induction evs as [|ev evs IH]; intros st Hs; [exact Hs|].
  rewrite run_cons. auto using step_stopped_inv.
Qed.

End Stopping.

(** ** Vanity search: worker failures *)

Section WorkerFailures.
Context {Secret : Type}.
Implicit Types (st : State Secret) (evs : list (Event Secret)).

Lemma on_exit_keeps st i code :
  promise (on_exit i code st) = promise st
  /\ workers (on_exit i code st) = workers st
  /\ walletFound (on_exit i code st) = walletFound st.
Proof. unfold on_exit. destruct (_ && _); auto. Qed.

Lemma run_failures_only st evs :
  forallb failure_only evs = true ->
  promise (run st evs) = promise st /\ walletFound (run st evs) = walletFound st.
Proof.
  revert st. induction evs as [|ev evs IH]; intros st Hf; [auto|].
  simpl in Hf. apply andb_prop in Hf as [Hev Hf].
  rewrite run_cons. destruct (IH (step st ev) Hf) as (-> & ->).
  destruct ev; try discriminate; simpl; auto.
  destruct (on_exit_keeps st i code) as (-> & _ & ->). auto.
Qed.

Lemma terminate_terminated (w : WorkerHandle) :
  terminated w = true -> terminate w = w.
Proof. destruct w as [wd t]. simpl. now intros ->. Qed.

(** In a state the search can reach, a match that was honoured has already
    terminated every worker. *)
Lemma found_all_terminated (env : Env) (options : Options) (st0 : State Secret) evs :
  generateVanityWallet env options = inr st0 ->
  walletFound (run st0 evs) = true ->
  Forall (fun w => terminated w = true) (workers (run st0 evs)).
Proof.
  intros Hgen Hfound.
  assert (Hf : found_inv (run st0 evs)).
  { apply run_found_inv. now apply (initial_found_inv env options). }
  assert (Hs : stopped_inv (run st0 evs)).
  { apply run_stopped_inv. intros Hp.
    destruct (initial_state _ _ _ Hgen) as (_ & Hpending & _). congruence. }
  destruct (Hf Hfound) as (Hsettled & _). now destruct (Hs Hsettled).
Qed.

End WorkerFailures.

(** C6, as the script has it.  In every state the search reaches, an
    [error] event of worker [i] is logged and leaves worker [i] terminated
    (it is terminated by the handler, or had been terminated already when a
    match was honoured) and touches no other worker; neither it nor an [exit]
    event touches the promise.  So worker failures alone never fail the
    search, however many workers they take down: there is no escalation. *)
Theorem worker_failure_is_not_fatal :
  forall (Secret : Type) (env : Env) (options : Options) (st0 : State Secret)
         (evs : list (Event Secret)) (i : nat) (code : Z),
    generateVanityWallet env options = inr st0 ->
    let st := run st0 evs in
    promise (on_error i st) = promise st
    /\ console (on_error i st) = console st ++ [OutWorkerError (i + 1)]
    /\ workers (on_error i st) !! i = terminate <$> workers st !! i
    /\ (forall w, workers (on_error i st) !! i = Some w -> terminated w = true)
    /\ (forall j, j <> i -> workers (on_error i st) !! j = workers st !! j)
    /\ promise (on_exit i code st) = promise st
    /\ workers (on_exit i code st) = workers st
    /\ (forall evs', forallb failure_only evs' = true ->
          promise (run st evs') = promise st).
Proof.
  intros Secret env options st0 evs i code Hgen st.
  destruct (on_exit_keeps st i code) as (Hp & Hw & _).
  assert (Hlookup : workers (on_error i st) !! i = terminate <$> workers st !! i).
  { simpl. case_eq (walletFound st); intros Hfound; simpl.
    - pose proof (found_all_terminated env options st0 evs Hgen Hfound) as Hall.
      fold st in Hall.
      destruct (workers st !! i) as [w|] eqn:Hw'; simpl; [|reflexivity].
      rewrite terminate_terminated; [reflexivity|].
      exact (proj1 (Forall_lookup _ _) Hall i w Hw').
    - apply list_lookup_alter_eq. }
  repeat split; auto.
  - intros w. rewrite Hlookup. destruct (workers st !! i) as [w'|]; simpl; [|discriminate].
    intros [= <-]. reflexivity.
  - intros j Hj. simpl. destruct (walletFound st); simpl; auto.
    apply list_lookup_alter_ne. congruence.
  - intros evs' Hevs. now apply run_failures_only.
Qed.

Lemma worker_failure_is_not_fatal_witness :
  let st0 : State string :=
    mkState false 0 0 true (Armed 60000)
            (map (spawn (mkOptions (Some "so"%string) None None (Some 2) None) true)
                 (seq 0 2))
            Pending [OutStart 2 true; OutPrefix "so"%string] in
  let st := run st0 [EvMessage 0 (MsgProgress 1000); EvError 0] in
  promise (on_error 1 st) = promise st
  /\ console (on_error 1 st) = console st ++ [OutWorkerError 2]
  /\ workers (on_error 1 st) !! 1%nat = terminate <$> workers st !! 1%nat
  /\ (forall w, workers (on_error 1 st) !! 1%nat = Some w -> terminated w = true)
  /\ (forall j, j <> 1%nat -> workers (on_error 1 st) !! j = workers st !! j)
  /\ promise (on_exit 1 1 st) = promise st
  /\ workers (on_exit 1 1 st) = workers st
  /\ (forall evs', forallb failure_only evs' = true ->
        promise (run st evs') = promise st).
Proof.
  intros st0.
  exact (worker_failure_is_not_fatal string (mkEnv true 2 0)
           (mkOptions (Some "so"%string) None None (Some 2) None) st0
           [EvMessage 0 (MsgProgress 1000); EvError 0] 1%nat 1 eq_refl).
Defined.

(** After a match was honoured every worker is terminated already, and a late
    [error] event finds its worker so; with both workers failed and no match,
    the search is still pending. *)
Example worker_failures_shown :
  let st0 : State string :=
    mkState false 0 0 true (Armed 60000)
            (map (spawn (mkOptions (Some "so"%string) None None (Some 2) None) true)
                 (seq 0 2))
            Pending [OutStart 2 true; OutPrefix "so"%string] in
  let found := run st0 [EvMessage 0 (MsgFound "so11"%string "key"%string 7)] in
  let failed := run st0 [EvError 0; EvExit 0 1; EvError 1; EvExit 1 1] in
  map terminated (workers found) = [true; true]
  /\ map terminated (workers (on_error 1 found)) = [true; true]
  /\ promise (on_error 1 found) = Resolved "key"%string
  /\ map terminated (workers failed) = [true; true]
  /\ promise failed = Pending.
Proof. vm_compute. repeat split. Qed.

(** C6, where it fails: the only worker of a search fails and exits; no
    worker is left, no match was found, and the promise is still pending. *)
Lemma no_worker_left_still_pending : ~ fatal_when_no_worker_left string.
Proof.
  intros Hfatal.
  destruct (Hfatal (mkEnv true 2 0)
                   (mkOptions (Some "so"%string) None None (Some 1) None)
                   _ [EvError 0; EvExit 0 1] eq_refl eq_refl eq_refl) as [e He].
  discriminate He.
Qed.

(** ** Binary64: when a quotient is finite *)

(** The magnitude of a finite number is the number of binary digits of its
    mantissa plus its exponent.  Rounding moves it up by at most one, and the
    magnitude of a quotient is within two of the difference of the magnitudes,
    so a quotient of numbers of moderate magnitude neither overflows nor
    vanishes. *)

Section Digits.

Lemma digits2_size (p : positive) : digits2_pos p = Pos.size p.
Proof. induction p; simpl; congruence. Qed.

Lemma digits_bounds (p : positive) :
  2 ^ (Zpos (digits2_pos p) - 1) <= Zpos p < 2 ^ Zpos (digits2_pos p).
Proof.
  rewrite digits2_size. split.
  - pose proof (Pos.size_le p) as H.
    apply Pos2Z.pos_le_pos in H. rewrite Pos2Z.inj_pow in H.
    change (Zpos p~0) with (2 * Zpos p) in H.
    replace (Zpos (Pos.size p)) with (Zpos (Pos.size p) - 1 + 1) in H by lia.
    rewrite Z.pow_add_r in H by lia. lia.
  - pose proof (Pos.size_gt p) as H.
    apply Pos2Z.pos_lt_pos in H. now rewrite Pos2Z.inj_pow in H.
Qed.

Lemma Zdigits2_bounds (m : Z) :
  0 < m -> 1 <= Zdigits2 m /\ 2 ^ (Zdigits2 m - 1) <= m < 2 ^ Zdigits2 m.
Proof.
  destruct m as [|p|p]; try lia. intros _. simpl. split; [lia|]. apply digits_bounds.
Qed.

(** The number of digits is determined by the bounds. *)
Lemma Zdigits2_unique (m d : Z) :
  2 ^ (d - 1) <= m < 2 ^ d -> 1 <= d -> Zdigits2 m = d.
Proof.
  intros [Hlo Hhi] Hd.
  assert (Hm : 0 < m) by (assert (0 < 2 ^ (d - 1)) by (apply Z.pow_pos_nonneg; lia); lia).
  destruct (Zdigits2_bounds m Hm) as (H1 & Hlo' & Hhi').
  destruct (Z.lt_trichotomy (Zdigits2 m) d) as [Hlt|[Heq|Hgt]]; [|exact Heq|].
  - assert (2 ^ Zdigits2 m <= 2 ^ (d - 1)) by (apply Z.pow_le_mono_r; lia). lia.
  - assert (2 ^ d <= 2 ^ (Zdigits2 m - 1)) by (apply Z.pow_le_mono_r; lia). lia.
Qed.

Lemma Zdigits2_shiftr (m n : Z) :
  0 < m -> 0 <= n < Zdigits2 m ->
  0 < m / 2 ^ n /\ Zdigits2 (m / 2 ^ n) = Zdigits2 m - n.
Proof.
  intros Hm Hn. destruct (Zdigits2_bounds m Hm) as (H1 & Hlo & Hhi).
  set (d := Zdigits2 m) in *.
  assert (Hp : 0 < 2 ^ n) by (apply Z.pow_pos_nonneg; lia).
  assert (Hq : 2 ^ (d - n - 1) <= m / 2 ^ n < 2 ^ (d - n)).
  { split.
    - apply Z.div_le_lower_bound; [lia|].
      rewrite <- Z.pow_add_r by lia. now replace (n + (d - n - 1)) with (d - 1) by lia.
    - apply Z.div_lt_upper_bound; [lia|].
      rewrite <- Z.pow_add_r by lia. now replace (n + (d - n)) with d by lia. }
  split.
  - assert (0 < 2 ^ (d - n - 1)) by (apply Z.pow_pos_nonneg; lia). lia.
  - apply Zdigits2_unique; [|lia]. exact Hq.
Qed.

Lemma Zdigits2_succ (m : Z) :
  0 < m -> Zdigits2 m <= Zdigits2 (m + 1) <= Zdigits2 m + 1.
Proof.
  intros Hm. destruct (Zdigits2_bounds m Hm) as (H1 & Hlo & Hhi).
  set (d := Zdigits2 m) in *.
  destruct (Z.eq_dec (m + 1) (2 ^ d)) as [Heq|Hne].
  - rewrite (Zdigits2_unique (m + 1) (d + 1)); [lia| |lia].
    replace (d + 1 - 1) with d by lia. rewrite Z.pow_add_r by lia. lia.
  - rewrite (Zdigits2_unique (m + 1) d); [lia| |lia]. lia.
Qed.

End Digits.

Section Rounding.
Import Binary64.

Lemma fexp_eq (e : Z) : fexp prec emax e = Z.max (e - 53) (-1074).
Proof. reflexivity. Qed.

Lemma shr_1_m (mrs : shr_record) :
  0 <= shr_m mrs -> shr_m (shr_1 mrs) = shr_m mrs / 2.
Proof.
  destruct mrs as [m r s]. cbn [shr_m]. intros Hm.
  destruct m as [|[p|p|]|p]; try lia; cbn [shr_1 shr_m]; try reflexivity.
  - apply Z.div_unique with (r := 1); lia.
  - apply Z.div_unique with (r := 0); lia.
Qed.

Lemma iter_shr_1_m (p : positive) :
  forall mrs, 0 <= shr_m mrs ->
              0 <= shr_m (SpecFloat.iter_pos shr_1 p mrs)
              /\ shr_m (SpecFloat.iter_pos shr_1 p mrs) = shr_m mrs / 2 ^ Zpos p.
Proof.
  assert (Hnn : forall a b, 0 <= a -> 0 < b -> 0 <= a / b)
    by (intros; apply Z.div_pos; lia).
  assert (Hpow : forall q, 0 < 2 ^ Zpos q) by (intros; apply Z.pow_pos_nonneg; lia).
  induction p as [p IH|p IH|]; intros mrs Hm; cbn [SpecFloat.iter_pos].
  - pose proof (shr_1_m mrs Hm) as E1.
    assert (N1 : 0 <= shr_m (shr_1 mrs)) by (rewrite E1; apply Hnn; lia).
    destruct (IH _ N1) as [N2 E2]. destruct (IH _ N2) as [N3 E3].
    split; [exact N3|]. rewrite E3, E2, E1.
    rewrite !Z.div_div by (pose proof (Hpow p); lia).
    f_equal. rewrite Pos2Z.inj_xI.
    replace (2 * Zpos p + 1) with (1 + Zpos p + Zpos p) by lia.
    rewrite !Z.pow_add_r by lia. lia.
  - destruct (IH _ Hm) as [N2 E2]. destruct (IH _ N2) as [N3 E3].
    split; [exact N3|]. rewrite E3, E2.
    rewrite Z.div_div by (pose proof (Hpow p); lia).
    f_equal.
    replace (Zpos p~0) with (Zpos p + Zpos p) by lia.
    rewrite Z.pow_add_r by lia. lia.
  - pose proof (shr_1_m mrs Hm) as E1. rewrite E1. split; [apply Hnn; lia | reflexivity].
Qed.

(** Shifting right by [n >= 0] places. *)
Lemma shr_m_e (mrs : shr_record) (e n : Z) :
  0 <= shr_m mrs -> 0 <= n ->
  shr_m (fst (shr mrs e n)) = shr_m mrs / 2 ^ n /\ snd (shr mrs e n) = e + n.
Proof.
  intros Hm Hn. destruct n as [|p|p]; try lia; simpl.
  - rewrite Z.div_1_r. split; [reflexivity | lia].
  - split; [now apply iter_shr_1_m | reflexivity].
Qed.

Lemma shr_record_of_loc_m (m : Z) (l : location) : shr_m (shr_record_of_loc m l) = m.
Proof. destruct l as [|[]]; reflexivity. Qed.

Lemma round_nearest_even_cases (m : Z) (l : location) :
  round_nearest_even m l = m \/ round_nearest_even m l = m + 1.
Proof. destruct l as [|[]]; simpl; auto. destruct (Z.even m); auto. Qed.

(** One pass of [shr_fexp] on a positive mantissa that is not too small:
    the mantissa stays positive and the magnitude is kept. *)
Lemma shr_fexp_spec (m e : Z) (l : location) :
  0 < m ->
  e <= fexp prec emax (Zdigits2 m + e) ->
  -1074 < Zdigits2 m + e ->
  let '(mrs, e') := shr_fexp prec emax m e l in
  0 < shr_m mrs
  /\ e' = fexp prec emax (Zdigits2 m + e)
  /\ Zdigits2 (shr_m mrs) + e' = Zdigits2 m + e.
Proof.
  intros Hm He Hmag. unfold shr_fexp.
  set (n := fexp prec emax (Zdigits2 m + e) - e).
  assert (Hn : 0 <= n < Zdigits2 m) by (subst n; rewrite fexp_eq in *; lia).
  destruct (shr (shr_record_of_loc m l) e n) as [mrs e'] eqn:Hshr.
  destruct (shr_m_e (shr_record_of_loc m l) e n) as [H1 H2];
    [rewrite shr_record_of_loc_m; lia | lia |].
  rewrite Hshr in H1, H2. simpl in H1, H2. rewrite shr_record_of_loc_m in H1.
  destruct (Zdigits2_shiftr m n Hm Hn) as [Hpos Hdig].
  rewrite H1, H2, Hdig. subst n. repeat split; lia.
Qed.

Lemma fexp_mono (a b : Z) : a <= b -> fexp prec emax a <= fexp prec emax b.
Proof. rewrite !fexp_eq. lia. Qed.

(** Rounding a positive mantissa whose magnitude is in the normal or
    subnormal range gives a finite number of the same magnitude, or one
    more. *)
Lemma binary_round_aux_finite (sx : bool) (m e : Z) (l : location) :
  0 < m ->
  e <= fexp prec emax (Zdigits2 m + e) ->
  -1074 < Zdigits2 m + e ->
  Zdigits2 m + e <= 1023 ->
  exists m' e',
    binary_round_aux prec emax sx m e l = S754_finite sx m' e'
    /\ Zdigits2 m + e <= Zpos (digits2_pos m') + e' <= Zdigits2 m + e + 1.
Proof.
  intros Hm He Hlo Hhi. unfold binary_round_aux.
  pose proof (shr_fexp_spec m e l Hm He Hlo) as H1.
  destruct (shr_fexp prec emax m e l) as [mrs1 e1].
  destruct H1 as (Hm1 & He1 & Hmag1).
  set (m2 := round_nearest_even (shr_m mrs1) (loc_of_shr_record mrs1)).
  assert (Hm2 : 0 < m2 /\ Zdigits2 (shr_m mrs1) <= Zdigits2 m2 <= Zdigits2 (shr_m mrs1) + 1).
  { subst m2. destruct (round_nearest_even_cases (shr_m mrs1) (loc_of_shr_record mrs1))
      as [->| ->]; [lia|].
    split; [lia|]. now apply Zdigits2_succ. }
  destruct Hm2 as [Hm2 Hd2].
  assert (He2 : e1 <= fexp prec emax (Zdigits2 m2 + e1)).
  { rewrite He1 at 1. rewrite <- Hmag1. apply fexp_mono. lia. }
  pose proof (shr_fexp_spec m2 e1 loc_Exact Hm2 He2 ltac:(lia)) as H2.
  destruct (shr_fexp prec emax m2 e1 loc_Exact) as [mrs3 e3].
  destruct H2 as (Hm3 & He3 & Hmag3).
  destruct (shr_m mrs3) as [|m3|m3] eqn:Hm3'; try lia.
  assert (Hfin : (e3 <=? emax - prec) = true).
  { apply Z.leb_le. rewrite He3, fexp_eq. unfold emax, prec. lia. }
  rewrite Hfin. exists m3, e3. split; [reflexivity|].
  simpl in Hmag3. lia.
Qed.

End Rounding.

Section Operations.
Import Binary64.

Lemma pow2_lt_inv (a b : Z) : 0 <= b -> 2 ^ a < 2 ^ b -> a < b.
Proof. intros Hb H. apply (Z.pow_lt_mono_r_iff 2); lia. Qed.

(** Digits from a coarse enclosure. *)
Lemma Zdigits2_between (q k : Z) :
  0 <= k -> 2 ^ k <= q < 2 ^ (k + 2) -> 0 < q /\ k + 1 <= Zdigits2 q <= k + 2.
Proof.
  intros Hk [Hlo Hhi].
  assert (Hq : 0 < q) by (assert (0 < 2 ^ k) by (apply Z.pow_pos_nonneg; lia); lia).
  destruct (Zdigits2_bounds q Hq) as (H1 & Hlo' & Hhi').
  split; [exact Hq|]. split.
  - assert (k < Zdigits2 q) by (apply pow2_lt_inv; lia). lia.
  - assert (Zdigits2 q - 1 < k + 2) by (apply pow2_lt_inv; lia). lia.
Qed.

Lemma iter_xO (m k : positive) : Zpos (Pos.iter xO m k) = Zpos m * 2 ^ Zpos k.
Proof.
  induction k as [|k IH] using Pos.peano_ind.
  - simpl. lia.
  - rewrite Pos.iter_succ, Pos2Z.inj_xO, IH, Pos2Z.inj_succ, Z.pow_succ_r by lia. lia.
Qed.

Lemma shl_align_spec (mx : positive) (ex ex' : Z) :
  ex' <= ex ->
  let '(mz, ez) := shl_align mx ex ex' in
  ez = ex' /\ Zpos mz = Zpos mx * 2 ^ (ex - ex').
Proof.
  intros Hle. unfold shl_align.
  destruct (ex' - ex) as [|d|d] eqn:Hd; try lia.
  - replace (ex - ex') with 0 by lia. split; lia.
  - replace (ex - ex') with (Zpos d) by lia. split; [reflexivity | apply iter_xO].
Qed.

Lemma Zdigits2_shiftl (m k : Z) :
  0 < m -> 0 <= k -> Zdigits2 (m * 2 ^ k) = Zdigits2 m + k.
Proof.
  intros Hm Hk. destruct (Zdigits2_bounds m Hm) as (H1 & Hlo & Hhi).
  assert (Hp : 0 < 2 ^ k) by (apply Z.pow_pos_nonneg; lia).
  apply Zdigits2_unique; [|lia]. split.
  - replace (Zdigits2 m + k - 1) with (Zdigits2 m - 1 + k) by lia.
    rewrite Z.pow_add_r by lia. nia.
  - rewrite Z.pow_add_r by lia. nia.
Qed.

(** An integer below 2^53 in size converts to a finite number of magnitude
    between 1 and 54. *)
Lemma of_Z_finite (z : Z) :
  z <> 0 -> Z.abs z < 2 ^ 53 ->
  exists s m e,
    of_Z z = S754_finite s m e /\ 1 <= Zpos (digits2_pos m) + e <= 54.
Proof.
  intros Hz Hsmall.
  assert (Hround : forall s p, Zpos p < 2 ^ 53 ->
            exists m e, binary_round prec emax s p 0 = S754_finite s m e
                        /\ 1 <= Zpos (digits2_pos m) + e <= 54).
  { intros s p Hp. unfold binary_round.
    destruct (Zdigits2_bounds (Zpos p) ltac:(lia)) as (H1 & Hlo & Hhi).
    cbn [Zdigits2] in H1, Hlo, Hhi.
    assert (Hd : Zpos (digits2_pos p) <= 53).
    { assert (Zpos (digits2_pos p) - 1 < 53) by (apply pow2_lt_inv; lia). lia. }
    pose proof (shl_align_spec p 0 (fexp prec emax (Zpos (digits2_pos p) + 0))) as Hal.
    rewrite fexp_eq in *.
    destruct (shl_align p 0 (Z.max (Zpos (digits2_pos p) + 0 - 53) (-1074))) as [mz ez].
    destruct Hal as [Hez Hmz]; [lia|].
    assert (Hdz : Zdigits2 (Zpos mz) = 53).
    { rewrite Hmz, Zdigits2_shiftl by lia. cbn [Zdigits2]. lia. }
    destruct (binary_round_aux_finite s (Zpos mz) ez loc_Exact) as (m & e & Heq & Hmag);
      try (rewrite ?fexp_eq, ?Hdz; lia).
    exists m, e. split; [exact Heq|]. rewrite Hdz in Hmag. lia. }
  unfold of_Z, binary_normalize. destruct z as [|p|p]; [congruence| |].
  - destruct (Hround false p) as (m & e & H); [simpl in Hsmall; lia|]. eauto.
  - destruct (Hround true p) as (m & e & H); [simpl in Hsmall; lia|]. eauto.
Qed.

(** The quotient of two finite numbers whose magnitudes differ by an amount
    in the normal range is finite, of magnitude that difference, or up to
    two more. *)
Lemma fdiv_finite (sx sy : bool) (mx my : positive) (ex ey : Z) :
  let D := (Zpos (digits2_pos mx) + ex) - (Zpos (digits2_pos my) + ey) in
  -1021 <= D <= 1021 ->
  exists m e,
    fdiv (S754_finite sx mx ex) (S754_finite sy my ey) = S754_finite (xorb sx sy) m e
    /\ D <= Zpos (digits2_pos m) + e <= D + 2.
Proof.
  intros D HD. unfold fdiv, SFdiv, SFdiv_core_binary. cbn [Zdigits2].
  set (dx := Zpos (digits2_pos mx)) in *. set (dy := Zpos (digits2_pos my)) in *.
  fold D. rewrite fexp_eq.
  set (e' := Z.min (Z.max (D - 53) (-1074)) (ex - ey)).
  set (s := ex - ey - e').
  assert (Hs : dy - dx + 53 <= s) by (subst s e' D; lia).
  destruct (Zdigits2_bounds (Zpos mx) ltac:(lia)) as (Hdx & Hxlo & Hxhi).
  destruct (Zdigits2_bounds (Zpos my) ltac:(lia)) as (Hdy & Hylo & Hyhi).
  cbn [Zdigits2] in Hdx, Hxlo, Hxhi, Hdy, Hylo, Hyhi. fold dx in Hdx, Hxlo, Hxhi.
  fold dy in Hdy, Hylo, Hyhi.
  assert (Hspos : 0 <= s) by (subst s e'; lia).
  set (m' := match s with Zpos _ => Z.shiftl (Zpos mx) s | 0 => Zpos mx | Zneg _ => 0 end).
  assert (Hm' : m' = Zpos mx * 2 ^ s).
  { subst m'. destruct s; try lia. now rewrite Z.shiftl_mul_pow2 by lia. }
  pose proof (Z_div_mod m' (Zpos my) ltac:(lia)) as Hdiv.
  destruct (Z.div_eucl m' (Zpos my)) as [q r]. destruct Hdiv as [Hqr Hr].
  set (k := dx + s - dy - 1).
  assert (Hps : 0 < 2 ^ s) by (apply Z.pow_pos_nonneg; lia).
  assert (Hq : 2 ^ k <= q < 2 ^ (k + 2)).
  { assert (Hk1 : 2 ^ (dx - 1 + s) = 2 ^ k * 2 ^ dy).
    { rewrite <- Z.pow_add_r by lia. f_equal. lia. }
    assert (Hk2 : 2 ^ (dx + s) = 2 ^ (k + 2) * 2 ^ (dy - 1)).
    { rewrite <- Z.pow_add_r by lia. f_equal. lia. }
    assert (Hlo : 2 ^ (dx - 1 + s) <= m') by (rewrite Hm', Z.pow_add_r by lia; nia).
    assert (Hhi : m' < 2 ^ (dx + s)) by (rewrite Hm', Z.pow_add_r by lia; nia).
    assert (0 < 2 ^ k) by (apply Z.pow_pos_nonneg; lia).
    assert (0 < 2 ^ (k + 2)) by (apply Z.pow_pos_nonneg; lia).
    split; nia. }
  destruct (Zdigits2_between q k ltac:(lia) Hq) as [Hqpos Hdq].
  assert (Hmag : dx + s - dy + e' = D) by (subst s D; lia).
  destruct (binary_round_aux_finite (xorb sx sy) q e' (new_location (Zpos my) r))
    as (m & e & Heq & Hm); try (rewrite ?fexp_eq; subst e' k; lia).
  exists m, e. split; [exact Heq|]. subst k. lia.
Qed.

End Operations.

(** ** Vanity search: the rate shown *)

Section Rate.

Lemma of_Z_1000 : Binary64.of_Z 1000 = S754_finite false 8796093022208000 (-43).
Proof. reflexivity. Qed.

Lemma rate_finite (total ms : Z) :
  ms <> 0 -> Z.abs ms < 2 ^ 53 -> Z.abs total < 2 ^ 53 ->
  exists r, rate total ms = JS.Finite r.
Proof.
  intros Hms Hmsb Htb. unfold rate.
  destruct (of_Z_finite ms Hms Hmsb) as (s1 & m1 & e1 & -> & Hmag1).
  rewrite of_Z_1000.
  destruct (fdiv_finite s1 false m1 8796093022208000 e1 (-43)) as (my & ey & -> & Hmagy).
  { change (Zpos (digits2_pos 8796093022208000)) with 53. lia. }
  change (Zpos (digits2_pos 8796093022208000)) with 53 in Hmagy.
  destruct (Z.eq_dec total 0) as [->|Hne].
  - simpl. eauto.
  - destruct (of_Z_finite total Hne Htb) as (sx & mx & ex & -> & Hmagx).
    destruct (fdiv_finite sx (xorb s1 false) mx my ex ey) as (m & e & -> & _); [lia|].
    simpl. eauto.
Qed.

(** With no time elapsed the divisor is zero: 0/0 is NaN and anything else
    over zero is an infinity. *)
Lemma rate_at_zero_elapsed (total : Z) :
  Z.abs total < 2 ^ 53 -> JS.isFinite (rate total 0) = false.
Proof.
  intros Htb. unfold rate.
  change (Binary64.fdiv (Binary64.of_Z 0) (Binary64.of_Z 1000)) with (S754_zero false).
  destruct (Z.eq_dec total 0) as [->|Hne]; [reflexivity|].
  destruct (of_Z_finite total Hne Htb) as (sx & mx & ex & -> & _).
  destruct sx; reflexivity.
Qed.

End Rate.

(** C7, as the script has it.  The division is not guarded.  At a tick whose
    clock reading differs from the start reading the rate
    [Math.floor(totalAttempts / elapsedSec)], computed in binary64 as the
    script computes it, is a finite number, and that number is what the
    progress line shows.  Attempt counts and clock differences are integers
    that a JavaScript number holds exactly, that is, below 2^53. *)
Theorem rate_finite_when_time_elapsed :
  forall (Secret : Type) (st : State Secret) (now : Z),
    now <> startTime st ->
    Z.abs (now - startTime st) < 2 ^ 53 ->
    Z.abs (totalAttempts st) < 2 ^ 53 ->
    exists r : Z,
      rate (totalAttempts st) (now - startTime st) = JS.Finite r
      /\ JS.isFinite (rate (totalAttempts st) (now - startTime st)) = true
      /\ console (updateProgress now st)
         = console st ++ [OutProgress (totalAttempts st) (JS.Finite r)].
Proof.
  intros Secret st now Hne Hms Htotal.
  destruct (rate_finite (totalAttempts st) (now - startTime st)) as [r Hr];
    [lia | exact Hms | exact Htotal |].
  exists r. split; [exact Hr|]. split; [now rewrite Hr|].
  unfold updateProgress. simpl. now rewrite Hr.
Qed.

Lemma rate_finite_when_time_elapsed_witness :
  let st : State string :=
    mkState false 7000 1700000000000 true (Armed 60000) [] Pending [] in
  exists r : Z,
    rate 7000 (1700000000035 - 1700000000000) = JS.Finite r
    /\ JS.isFinite (rate 7000 (1700000000035 - 1700000000000)) = true
    /\ console (updateProgress 1700000000035 st) = [OutProgress 7000 (JS.Finite r)].
Proof.
  intros st.
  apply (rate_finite_when_time_elapsed string st 1700000000035);
    [discriminate | reflexivity | reflexivity].
Defined.

(** The rate is the floor of a quotient that was rounded twice: 7000 attempts
    in 35 ms show as 199999 per second, 25000 attempts in 100 ms as 250000. *)
Example rate_shown :
  rate 7000 35 = JS.Finite 199999 /\ rate 25000 100 = JS.Finite 250000.
Proof. split; vm_compute; reflexivity. Qed.

(** C7, where it fails: a tick at which the clock reads the start time. *)
Lemma rate_at_zero_elapsed_not_finite : ~ rate_always_finite string.
Proof.
  intros Hfinite.
  specialize (Hfinite (mkState false 0 1700000000000 true (Armed 60000) [] Pending [])
                      1700000000000).
  discriminate Hfinite.
Qed.

Example rate_at_zero_elapsed_shown :
  map shown_rate
      (console (step (mkState (Secret:=string) false 0 1700000000000 true
                              (Armed 60000) [] Pending [])
                     (EvTick 1700000000000)))
  = [Some JS.NaN]
  /\ rate 2000 0 = JS.PosInfinity.
Proof. split; reflexivity. Qed.

(** ** getTokenBalance: a token account that cannot be read *)

Section TokenFacts.
Context {PublicKey Error : Type}.
Variable newPublicKey : string -> Error + PublicKey.
Variable toString : PublicKey -> string.
Variable getAssociatedTokenAddress : PublicKey -> PublicKey -> Error + PublicKey.
Variable getMint : PublicKey -> Error + Token.MintInfo.
Variable getTokenAccountBalance : PublicKey -> Error + Z.
Variable Math_pow : Binary64.float -> Binary64.float -> Binary64.float.

(** C9.  When the wallet's associated token account does not exist, so that
    reading its balance fails, the query does not fail: it returns the
    balance zero together with the text of the derived token account
    address, and logs no error.  (The lookup is reached once both addresses
    are public keys, the address is derived and the mint is read.) *)
Theorem missing_token_account_reads_zero :
  forall (walletAddress mintAddress : string + PublicKey)
         (walletPublicKey mintPublicKey tokenAccountAddress : PublicKey)
         (mintInfo : Token.MintInfo) (err : Error),
    Token.asPublicKey newPublicKey walletAddress = inr walletPublicKey ->
    Token.asPublicKey newPublicKey mintAddress = inr mintPublicKey ->
    getAssociatedTokenAddress mintPublicKey walletPublicKey = inr tokenAccountAddress ->
    getMint mintPublicKey = inr mintInfo ->
    getTokenAccountBalance tokenAccountAddress = inl err ->
    Token.getTokenBalance newPublicKey toString getAssociatedTokenAddress getMint
                          getTokenAccountBalance Math_pow walletAddress mintAddress
    = (inr (Token.mkBalance (Binary64.of_Z 0) (toString tokenAccountAddress)), []).
Proof.
  intros walletAddress mintAddress walletPublicKey mintPublicKey tokenAccountAddress
         mintInfo err Hwallet Hmint Hata Hinfo Hlookup.
  unfold Token.getTokenBalance.
  now rewrite Hwallet, Hmint, Hata, Hinfo, Hlookup.
Qed.

End TokenFacts.

Lemma missing_token_account_reads_zero_witness :
  Token.getTokenBalance
    (fun text : string => if String.eqb text "" then inl "bad key"%string else inr text)
    (fun key : string => key)
    (fun mint owner : string => inr (String.append owner (String.append "/" mint)))
    (fun mint : string => inr (Token.mkMint 6))
    (fun account : string =>
       if String.eqb account "alice/usdc" then inl "could not find account"%string
       else inr 2500000)
    (fun base exponent : Binary64.float => Binary64.of_Z 1000000)
    (inl "alice"%string) (inr "usdc"%string)
  = (inr (Token.mkBalance (Binary64.of_Z 0) "alice/usdc"%string), []).
Proof.
  apply (missing_token_account_reads_zero
           (fun text : string => if String.eqb text "" then inl "bad key"%string else inr text)
           (fun key : string => key)
           (fun mint owner : string => inr (String.append owner (String.append "/" mint)))
           (fun mint : string => inr (Token.mkMint 6))
           (fun account : string =>
              if String.eqb account "alice/usdc" then inl "could not find account"%string
              else inr 2500000)
           (fun base exponent : Binary64.float => Binary64.of_Z 1000000)
           (inl "alice"%string) (inr "usdc"%string)
           "alice"%string "usdc"%string "alice/usdc"%string (Token.mkMint 6)
           "could not find account"%string);
    reflexivity.
Defined.

(** An account that can be read gives its amount scaled by the decimals:
    2500000 units of a mint with 6 decimals, [Math.pow(10, 6)] being 1000000,
    read as 2.5. *)
Example token_account_read :
  fst (Token.getTokenBalance
         (fun text : string => inr text) (fun key : string => key)
         (fun mint owner : string => @inr string string owner)
         (fun mint : string => inr (Token.mkMint 6))
         (fun account : string => @inr string Z 2500000)
         (fun base exponent : Binary64.float => Binary64.of_Z 1000000)
         (inl "bob"%string) (inl "usdc"%string))
  = inr (Token.mkBalance (Binary64.fdiv (Binary64.of_Z 5) (Binary64.of_Z 2)) "bob"%string).
Proof. vm_compute. reflexivity. Qed.

(** ** transferSOL: the balance check *)

Section TransferFacts.
Context {Bytes Keypair PublicKey Blockhash Signature Simulation Ledger Error : Type}.
Context {Instruction : Type}.
Variable bs58_decode : string -> Error + Bytes.
Variable fromSecretKey : Bytes -> Error + Keypair.
Variable publicKey : Keypair -> PublicKey.
Variable newPublicKey : string -> Error + PublicKey.
Variable isOnCurve : PublicKey -> bool.
Variable getBalance : Ledger -> PublicKey -> Error + Z.
Variable SystemProgram_transfer : PublicKey -> PublicKey -> Binary64.float -> Error + Instruction.
Variable getLatestBlockhash : Ledger -> Error + Blockhash.
Variable simulateTransaction :
  Ledger
  -> Transfer.Transaction (PublicKey:=PublicKey) (Blockhash:=Blockhash)
       (Instruction:=Instruction)
  -> Error + Simulation.
Variable sendAndConfirmTransaction :
  Ledger
  -> Transfer.Transaction (PublicKey:=PublicKey) (Blockhash:=Blockhash)
       (Instruction:=Instruction)
  -> (Error + Signature) * Ledger.


End TransferFacts.


(** The threshold is the one binary64 gives.  The number 0.01 is a little
    more than a hundredth, and in binary64 its product with 1000000000 is
    10000000: a balance of 10005000 lamports is accepted for 0.01 SOL, and
    the transfer is submitted; one lamport less is refused. *)
Example balance_at_the_threshold :
  let w (lamports : Z)
    : Transfer.World (Signature:=string) (Simulation:=bool) :=
    Transfer.mkWorld (fun owner : string => if String.eqb owner "alice" then lamports else 0)
                     [] [] in
  let amountInLamports :=
    Binary64.fmul (Demo.sol 1 100) (Binary64.of_Z Transfer.LAMPORTS_PER_SOL) in
  amountInLamports = Binary64.of_Z 10000000
  /\ Binary64.flt (Binary64.of_Z 10005000)
       (Binary64.fadd amountInLamports (Binary64.of_Z 5000)) = false
  /\ Binary64.flt (Binary64.of_Z 10004999)
       (Binary64.fadd amountInLamports (Binary64.of_Z 5000)) = true
  /\ fst (Demo.transferSOL "alice"%string "bob"%string (Demo.sol 1 100) (w 10005000))
     = inr "signature"%string
  /\ fst (Demo.transferSOL "alice"%string "bob"%string (Demo.sol 1 100) (w 10004999))
     = inl (Transfer.InsufficientBalance 10004999 (Demo.sol 1 100)).
Proof. vm_compute. repeat split. Qed.

(** For a whole number of SOL the threshold is the integer one. *)
Example whole_amount_threshold :
  let w (lamports : Z)
    : Transfer.World (Signature:=string) (Simulation:=bool) :=
    Transfer.mkWorld (fun owner : string => if String.eqb owner "alice" then lamports else 0)
                     [] [] in
  fst (Demo.transferSOL "alice"%string "bob"%string (Demo.sol 1 1) (w 1000005000))
  = inr "signature"%string
  /\ fst (Demo.transferSOL "alice"%string "bob"%string (Demo.sol 1 1) (w 1000004999))
     = inl (Transfer.InsufficientBalance 1000004999 (Demo.sol 1 1)).
Proof. vm_compute. repeat split. Qed.

(* ===================================================================== *)
(** * Further properties of the scripts *)
(* ===================================================================== *)

(** ** The worker loop *)

Section WorkerReports.
Context {Secret : Type} (address_of : Secret -> string).

Lemma batches_between_nonneg (a n : Z) :
  0 <= a -> 0 <= n -> 0 <= (a + n) / 1000 - a / 1000.
Proof.
  intros Ha Hn. assert (a / 1000 <= (a + n) / 1000) by (apply Z.div_le_mono; lia). lia.
Qed.

(** The messages of a worker whose first [length misses] key pairs miss,
    followed from local count [a]: one progress report per batch boundary
    crossed, then what the rest of the run posts. *)
Lemma worker_loop_misses (wd : WorkerData) (misses later : list Secret) :
  Forall (fun k => checkAddress wd (address_of k) = false) misses ->
  forall a : Z,
    0 <= a ->
    worker_loop address_of wd (misses ++ later) a
    = repeat (MsgProgress progressInterval)
             (Z.to_nat ((a + Z.of_nat (length misses)) / 1000 - a / 1000))
      ++ worker_loop address_of wd later (a + Z.of_nat (length misses)).
Proof.
  induction 1 as [|m misses Hm _ IH]; intros a Ha.
  - cbn [app length]. replace (a + Z.of_nat 0) with a by lia.
    now replace (a / 1000 - a / 1000) with 0 by lia.
  - cbn [app worker_loop]. rewrite Hm, (IH (a + 1)) by lia.
    replace (a + Z.of_nat (length (m :: misses)))
      with (a + 1 + Z.of_nat (length misses)) by (cbn [length]; lia).
    rewrite app_assoc. f_equal.
    pose proof (batch_boundary a Ha) as Hb.
    pose proof (batches_between_nonneg (a + 1) (Z.of_nat (length misses))
                  ltac:(lia) ltac:(lia)) as Hnn.
    unfold progressInterval in *.
    destruct ((a + 1) mod 1000 =? 0).
    + replace ((a + 1 + Z.of_nat (length misses)) / 1000 - a / 1000)
        with (Z.succ ((a + 1 + Z.of_nat (length misses)) / 1000 - (a + 1) / 1000))
        by lia.
      rewrite Z2Nat.inj_succ by lia. reflexivity.
    + replace ((a + 1 + Z.of_nat (length misses)) / 1000 - a / 1000)
        with ((a + 1 + Z.of_nat (length misses)) / 1000 - (a + 1) / 1000) by lia.
      reflexivity.
Qed.

End WorkerReports.

(** X1.  A worker reports the first key pair whose address passes its test,
    together with that key pair's position as the attempt count; before it,
    it posts one progress report for every full batch of 1000 misses; and it
    posts nothing after it, whatever it could have generated next. *)
Theorem worker_reports_first_match :
  forall (Secret : Type) (address_of : Secret -> string) (wd : WorkerData)
         (misses : list Secret) (hit : Secret) (never : list Secret),
    Forall (fun k => checkAddress wd (address_of k) = false) misses ->
    checkAddress wd (address_of hit) = true ->
    workerScript address_of wd (misses ++ hit :: never)
    = repeat (MsgProgress progressInterval)
             (Z.to_nat (Z.of_nat (length misses) / progressInterval))
      ++ [MsgFound (address_of hit) hit (Z.of_nat (length misses) + 1)].
Proof.
  intros Secret address_of wd misses hit never Hmiss Hhit.
  unfold workerScript. rewrite (worker_loop_misses address_of wd _ _ Hmiss 0) by lia.
  unfold progressInterval. rewrite Z.div_0_l, Z.sub_0_r, Z.add_0_l by lia.
  f_equal. cbn [worker_loop]. now rewrite Hhit.
Qed.

Lemma worker_reports_first_match_witness :
  workerScript (fun s : string => s) (mkWorkerData None (Some "Z"%string) false 3)
               (["abc"; "zy"; "xyz"; "never"; "zzz"]%string)
  = [MsgFound "xyz"%string "xyz"%string 3].
Proof.
  refine (worker_reports_first_match string (fun s => s)
            (mkWorkerData None (Some "Z"%string) false 3)
            ["abc"; "zy"]%string "xyz"%string ["never"; "zzz"]%string _ eq_refl).
  repeat constructor.
Defined.

(** X2.  A worker that has found nothing posts only progress reports, one per
    full batch: what it has reported never exceeds the attempts it made and
    lags behind them by less than one batch. *)
Theorem worker_progress_lags_by_less_than_a_batch :
  forall (Secret : Type) (address_of : Secret -> string) (wd : WorkerData)
         (misses : list Secret),
    Forall (fun k => checkAddress wd (address_of k) = false) misses ->
    let made := Z.of_nat (length misses) in
    let reported := progressInterval * (made / progressInterval) in
    workerScript address_of wd misses
      = repeat (MsgProgress progressInterval) (Z.to_nat (made / progressInterval))
    /\ reported <= made < reported + progressInterval.
Proof.
  intros Secret address_of wd misses Hmiss made reported.
  split.
  - unfold workerScript.
    rewrite <- (app_nil_r misses) at 1.
    rewrite (worker_loop_misses address_of wd _ _ Hmiss 0) by lia.
    unfold progressInterval. rewrite Z.div_0_l, Z.sub_0_r, Z.add_0_l by lia.
    cbn [worker_loop]. now rewrite app_nil_r.
  - subst reported. unfold progressInterval. Z.div_mod_to_equations. lia.
Qed.

Lemma worker_progress_lags_by_less_than_a_batch_witness :
  workerScript (fun s : string => s) (mkWorkerData (Some "so"%string) None true 0)
               (repeat "x"%string 2500)
  = [MsgProgress 1000; MsgProgress 1000].
Proof.
  refine (proj1 (worker_progress_lags_by_less_than_a_batch string (fun s => s)
                   (mkWorkerData (Some "so"%string) None true 0)
                   (repeat "x"%string 2500) _)).
  apply List.Forall_forall. intros k Hk. apply repeat_spec in Hk. subst k. reflexivity.
Defined.

(** ** The test for an address *)

(** X3.  Whatever a case-sensitive search accepts, the case-insensitive
    search for the same prefix and suffix accepts as well. *)
Theorem case_sensitive_match_is_insensitive_match :
  forall (p s : option string) (i j : nat) (address : string),
    checkAddress (mkWorkerData p s true i) address = true ->
    checkAddress (mkWorkerData p s false j) address = true.
Proof.
  intros p s i j address H.
  apply checkAddress_satisfies in H. apply checkAddress_satisfies.
  destruct H as [Hp Hs]. simpl in *. split.
  - intros q Hq Hne. destruct (Hp q Hq Hne) as (head & rest & -> & Hagree).
    exists head, rest. split; [reflexivity|]. simpl in Hagree. now subst.
  - intros q Hq Hne. destruct (Hs q Hq Hne) as (rest & tail & -> & Hagree).
    exists rest, tail. split; [reflexivity|]. simpl in Hagree. now subst.
Qed.

Lemma case_sensitive_match_is_insensitive_match_witness :
  checkAddress (mkWorkerData (Some "So"%string) (Some "Lx"%string) false 1) "SoLx"%string
  = true.
Proof.
  exact (case_sensitive_match_is_insensitive_match
           (Some "So"%string) (Some "Lx"%string) 0 1 "SoLx"%string eq_refl).
Defined.

(** ** The coordinator *)

Lemma totalAttempts_monotone_witness :
  let st : State string :=
    mkState false 0 0 true (Armed 60000)
            [mkWorker (mkWorkerData (Some "so"%string) None true 0) false]
            Pending [] in
  totalAttempts st
  <= totalAttempts (run st [EvMessage 0 (MsgProgress 1000); EvTick 100;
                            EvMessage 0 (MsgFound "so"%string "so"%string 1001)]).
Proof.
  intros st.
  apply (totalAttempts_monotone (fun s : string => s) (workers st)).
  intros i message [H|[H|[H|[]]]]; inversion H; subst;
    exists (mkWorker (mkWorkerData (Some "so"%string) None true 0) false),
           (repeat "x"%string 1000 ++ ["so"%string]);
    (split; [reflexivity|]); vm_compute; auto.
Defined.

Lemma positive_timeout_rejects_witness :
  let st0 : State string :=
    mkState false 0 0 true (Armed 50)
            [mkWorker (mkWorkerData (Some "so"%string) None true 0) false]
            Pending [OutStart 1 true; OutPrefix "so"%string] in
  timeoutId st0 = Armed 50
  /\ promise (run st0 ([EvMessage 0 (MsgProgress 1000)] ++ [EvTimeout])) = Rejected Timeout.
Proof.
  intros st0.
  apply (positive_timeout_rejects string (mkEnv true 2 0)
           (mkOptions (Some "so"%string) None None None (Some 50)) st0 50
           [EvMessage 0 (MsgProgress 1000)]);
    [reflexivity | reflexivity | unfold TIMEOUT_MAX; lia | reflexivity].
Defined.

(** X6.  As soon as the search has an outcome (a match or the timeout), every
    worker has been told to terminate and the progress display has stopped:
    a later tick of the interval prints nothing. *)
Theorem outcome_stops_workers_and_display :
  forall (Secret : Type) (env : Env) (options : Options) (st0 : State Secret)
         (evs : list (Event Secret)) (now : Z),
    generateVanityWallet env options = inr st0 ->
    promise (run st0 evs) <> Pending ->
    Forall (fun w => terminated w = true) (workers (run st0 evs))
    /\ step (run st0 evs) (EvTick now) = run st0 evs.
Proof.
  intros Secret env options st0 evs now Hgen Hsettled.
  assert (Hinv : stopped_inv (run st0 evs)).
  { apply run_stopped_inv. intros Hp.
    destruct (initial_state _ _ _ Hgen) as (_ & Hpending & _). congruence. }
  destruct (Hinv Hsettled) as [Hall Hint].
  split; [exact Hall|]. simpl. now rewrite Hint.
Qed.

Lemma outcome_stops_workers_and_display_witness :
  let st0 : State string :=
    mkState false 0 0 true (Armed 60000)
            (map (spawn (mkOptions None (Some "xyz"%string) None (Some 3) None) true)
                 (seq 0 3))
            Pending [OutStart 3 true; OutSuffix "xyz"%string] in
  let st := run st0 [EvError 1; EvMessage 2 (MsgProgress 1000); EvTimeout] in
  Forall (fun w => terminated w = true) (workers st)
  /\ step st (EvTick 60100) = st.
Proof.
  intros st0 st.
  apply (outcome_stops_workers_and_display string (mkEnv true 4 0)
           (mkOptions None (Some "xyz"%string) None (Some 3) None) st0
           [EvError 1; EvMessage 2 (MsgProgress 1000); EvTimeout] 60100 eq_refl).
  discriminate.
Defined.

(** X7.  A request with [threadsCount = n >= 1] creates exactly [n] workers;
    worker [i] gets thread id [i] and the request's prefix, suffix and case
    sensitivity, and starts out running. *)
Theorem workers_created_as_requested :
  forall (Secret : Type) (env : Env) (options : Options) (st0 : State Secret)
         (n : Z) (i : nat),
    generateVanityWallet env options = inr st0 ->
    threadsCount options = Some n ->
    1 <= n ->
    Z.of_nat (length (workers st0)) = n
    /\ (Z.of_nat i < n ->
        workers st0 !! i
        = Some (mkWorker (mkWorkerData (prefix options) (suffix options)
                                       (requested_case options) i) false)).
Proof.
  intros Secret env options st0 n i Hgen Hn Hpos.
  destruct (initial_state _ _ _ Hgen) as (_ & _ & _ & _ & Hworkers).
  rewrite Hworkers, Hn. simpl. replace (n =? 0) with false by lia.
  split.
  - rewrite length_map, length_seq. lia.
  - intros Hi.
    change (map ?f ?l) with (f <$> l).
    rewrite list_lookup_fmap.
    assert (Hseq : seq 0 (Z.to_nat n) !! i = Some i) by (apply lookup_seq; lia).
    now rewrite Hseq.
Qed.

Lemma workers_created_as_requested_witness :
  let st0 : State string :=
    mkState false 0 0 true (Armed 3000000)
            (map (spawn (mkOptions (Some "so"%string) None (Some true) (Some 8)
                                   (Some 3000000)) true) (seq 0 8))
            Pending [OutStart 8 true; OutPrefix "so"%string] in
  Z.of_nat (length (workers st0)) = 8
  /\ workers st0 !! 7%nat
     = Some (mkWorker (mkWorkerData (Some "so"%string) None true 7) false).
Proof.
  intros st0.
  destruct (workers_created_as_requested string (mkEnv true 4 0)
              (mkOptions (Some "so"%string) None (Some true) (Some 8) (Some 3000000))
              st0 8 7%nat eq_refl eq_refl ltac:(lia)) as [Hlen Hi].
  split; [exact Hlen | apply Hi; lia].
Defined.

(** ** Wallets from a mnemonic *)

Example account_path_examples :
  Wallet.account_path 0 = Wallet.default_path
  /\ Wallet.account_path 12 = "m/44'/501'/12'/0'"%string.
Proof. split; reflexivity. Qed.

Section WalletFacts.
Context {Seed Key Keypair Error : Type}.
Variable validateMnemonic : string -> bool.
Variable mnemonicToSeedSync : string -> Seed.
Variable derivePath : string -> Seed -> Error + Key.
Variable fromSeed : Key -> Error + Keypair.

(** The two lines both functions share: derive the key at a path, make the
    key pair. *)
Definition keypair_at (seed : Seed) (path : string) : Wallet.Thrown + Keypair :=
  match derivePath path seed with
  | inl e => inl (Wallet.Sdk e)
  | inr derivedSeed =>
      match fromSeed derivedSeed with
      | inl e => inl (Wallet.Sdk e)
      | inr keypair => inr keypair
      end
  end.

Lemma createWalletFromMnemonic_valid (mnemonic : string) (path : string) :
  validateMnemonic mnemonic = true ->
  Wallet.createWalletFromMnemonic validateMnemonic mnemonicToSeedSync derivePath fromSeed
    mnemonic (Some path)
  = keypair_at (mnemonicToSeedSync mnemonic) path.
Proof.
  intros Hv. unfold Wallet.createWalletFromMnemonic, keypair_at. now rewrite Hv.
Qed.

Lemma derive_loop_step (seed : Seed) (off : Z) (n : nat) (i : Z) (acc : list Keypair) :
  Wallet.derive_loop derivePath fromSeed seed off (S n) i acc
  = match keypair_at seed (Wallet.account_path (i + off)) with
    | inl e => inl e
    | inr keypair =>
        Wallet.derive_loop derivePath fromSeed seed off n (i + 1) (acc ++ [keypair])
    end.
Proof.
  unfold keypair_at. cbn [Wallet.derive_loop].
  destruct (derivePath _ seed); [reflexivity|]. now destruct (fromSeed _).
Qed.

(** What a completed loop has pushed. *)
Lemma derive_loop_result (seed : Seed) (off : Z) (n : nat) :
  forall (i : Z) (acc ws : list Keypair),
    Wallet.derive_loop derivePath fromSeed seed off n i acc = inr ws ->
    exists tail,
      ws = acc ++ tail
      /\ length tail = n
      /\ forall (k : nat) (w : Keypair),
           tail !! k = Some w ->
           keypair_at seed (Wallet.account_path (i + Z.of_nat k + off)) = inr w.
Proof.
  induction n as [|n IH]; intros i acc ws H.
  - injection H as <-. exists []. rewrite app_nil_r. repeat split. intros k w [=].
  - rewrite derive_loop_step in H.
    destruct (keypair_at seed (Wallet.account_path (i + off))) as [e|kp] eqn:Hkp;
      [discriminate|].
    destruct (IH _ _ _ H) as (tail & -> & Hlen & Hat).
    exists (kp :: tail). rewrite <- app_assoc. split; [reflexivity|].
    split; [simpl; congruence|].
    intros [|k] w Hk; simpl in Hk.
    + injection Hk as <-. now replace (i + Z.of_nat 0 + off) with (i + off) by lia.
    + replace (i + Z.of_nat (S k) + off) with (i + 1 + Z.of_nat k + off) by lia. auto.
Qed.

(** Running [a + b] iterations is running [a] and then [b] more. *)
Lemma derive_loop_add (seed : Seed) (off : Z) (a b : nat) :
  forall (i : Z) (acc : list Keypair),
    Wallet.derive_loop derivePath fromSeed seed off (a + b) i acc
    = match Wallet.derive_loop derivePath fromSeed seed off a i acc with
      | inl e => inl e
      | inr ws => Wallet.derive_loop derivePath fromSeed seed off b (i + Z.of_nat a) ws
      end.
Proof.
  induction a as [|a IH]; intros i acc.
  - cbn [Nat.add Wallet.derive_loop]. now replace (i + Z.of_nat 0) with i by lia.
  - change (S a + b)%nat with (S (a + b)). rewrite !derive_loop_step.
    destruct (keypair_at seed _); [reflexivity|]. rewrite IH.
    now replace (i + 1 + Z.of_nat a) with (i + Z.of_nat (S a)) by lia.
Qed.

(** Starting later is the same as a larger offset. *)
Lemma derive_loop_shift (seed : Seed) (off d : Z) (n : nat) :
  forall (i : Z) (acc : list Keypair),
    Wallet.derive_loop derivePath fromSeed seed off n (i + d) acc
    = Wallet.derive_loop derivePath fromSeed seed (off + d) n i acc.
Proof.
  induction n as [|n IH]; intros i acc; [reflexivity|].
  rewrite !derive_loop_step.
  replace (i + d + off) with (i + (off + d)) by lia.
  destruct (keypair_at seed _); [reflexivity|].
  replace (i + d + 1) with (i + 1 + d) by lia. apply IH.
Qed.

(** The wallets already pushed are only carried along. *)
Lemma derive_loop_acc (seed : Seed) (off : Z) (n : nat) :
  forall (i : Z) (acc : list Keypair),
    Wallet.derive_loop derivePath fromSeed seed off n i acc
    = match Wallet.derive_loop derivePath fromSeed seed off n i [] with
      | inl e => inl e
      | inr ws => inr (acc ++ ws)
      end.
Proof.
  induction n as [|n IH]; intros i acc.
  - cbn. now rewrite app_nil_r.
  - rewrite !derive_loop_step. destruct (keypair_at seed _) as [e|kp]; [reflexivity|].
    rewrite (IH _ (acc ++ [kp])), (IH _ ([] ++ [kp])).
    destruct (Wallet.derive_loop _ _ _ _ _ _ _); [reflexivity|].
    now rewrite <- app_assoc.
Qed.

(** X8.  When [deriveMultipleWallets] returns, it returns exactly [count]
    wallets (none for [count <= 0]), and the wallet at position [k] is the one
    [createWalletFromMnemonic] gives for the same mnemonic and the path of
    account [k + accountOffset]. *)
Theorem derived_wallets_are_the_single_wallets :
  forall (mnemonic : string) (count : Z) (accountOffset : option Z)
         (wallets : list Keypair),
    Wallet.deriveMultipleWallets validateMnemonic mnemonicToSeedSync derivePath fromSeed
      mnemonic count accountOffset = inr wallets ->
    length wallets = Z.to_nat count
    /\ forall (k : nat) (w : Keypair),
         wallets !! k = Some w ->
         Wallet.createWalletFromMnemonic validateMnemonic mnemonicToSeedSync derivePath
           fromSeed mnemonic
           (Some (Wallet.account_path
                    (Z.of_nat k + match accountOffset with Some o => o | None => 0 end)))
         = inr w.
Proof.
  intros mnemonic count accountOffset wallets H.
  unfold Wallet.deriveMultipleWallets in H.
  destruct (validateMnemonic mnemonic) eqn:Hv; [|discriminate]. simpl in H.
  apply derive_loop_result in H as (tail & -> & Hlen & Hat).
  split; [exact Hlen|].
  intros k w Hk. rewrite createWalletFromMnemonic_valid by exact Hv.
  apply (Hat k w Hk).
Qed.

(** X9.  Without an offset, the first derived wallet is the wallet
    [createWalletFromMnemonic] gives with its default path: the check the
    script's [main] prints always comes out as a match. *)
Theorem first_derived_wallet_is_the_default_wallet :
  forall (mnemonic : string) (count : Z) (wallets : list Keypair),
    Wallet.deriveMultipleWallets validateMnemonic mnemonicToSeedSync derivePath fromSeed
      mnemonic count None = inr wallets ->
    1 <= count ->
    exists first others,
      wallets = first :: others
      /\ Wallet.createWalletFromMnemonic validateMnemonic mnemonicToSeedSync derivePath
           fromSeed mnemonic None = inr first.
Proof.
  intros mnemonic count wallets H Hcount.
  destruct (derived_wallets_are_the_single_wallets _ _ _ _ H) as [Hlen Hat].
  destruct wallets as [|first others]; [simpl in Hlen; lia|].
  exists first, others. split; [reflexivity|].
  exact (Hat 0%nat first eq_refl).
Qed.

(** X10.  Deriving [a + b] wallets from an offset is deriving [a] wallets
    from it and [b] more from the offset [a] further on. *)
Theorem deriving_wallets_composes :
  forall (mnemonic : string) (a b offset : Z) (xs ys : list Keypair),
    0 <= a -> 0 <= b ->
    Wallet.deriveMultipleWallets validateMnemonic mnemonicToSeedSync derivePath fromSeed
      mnemonic a (Some offset) = inr xs ->
    Wallet.deriveMultipleWallets validateMnemonic mnemonicToSeedSync derivePath fromSeed
      mnemonic b (Some (offset + a)) = inr ys ->
    Wallet.deriveMultipleWallets validateMnemonic mnemonicToSeedSync derivePath fromSeed
      mnemonic (a + b) (Some offset) = inr (xs ++ ys).
Proof.
  intros mnemonic a b offset xs ys Ha Hb Hxs Hys.
  unfold Wallet.deriveMultipleWallets in *.
  destruct (validateMnemonic mnemonic); [|discriminate]. simpl in *.
  rewrite Z2Nat.inj_add, derive_loop_add, Hxs by lia.
  rewrite Z2Nat.id by lia.
  rewrite derive_loop_shift, derive_loop_acc, Hys. reflexivity.
Qed.

End WalletFacts.

Lemma derived_wallets_are_the_single_wallets_witness :
  Wallet.createWalletFromMnemonic
    (fun m : string => negb (String.eqb m ""))
    (fun m : string => m)
    (fun (path seed : string) => @inr string string (seed ++ "@" ++ path)%string)
    (fun key : string => @inr string string key)
    "lemon sort plug"%string (Some (Wallet.account_path (Z.of_nat 2 + 5)))
  = inr "lemon sort plug@m/44'/501'/7'/0'"%string.
Proof.
  refine (proj2 (derived_wallets_are_the_single_wallets
                   (fun m : string => negb (String.eqb m ""))
                   (fun m : string => m)
                   (fun (path seed : string) => @inr string string (seed ++ "@" ++ path)%string)
                   (fun key : string => @inr string string key)
                   "lemon sort plug"%string 3 (Some 5)
                   ["lemon sort plug@m/44'/501'/5'/0'"%string;
                    "lemon sort plug@m/44'/501'/6'/0'"%string;
                    "lemon sort plug@m/44'/501'/7'/0'"%string]
                   eq_refl) 2%nat _ eq_refl).
Defined.

Lemma first_derived_wallet_is_the_default_wallet_witness :
  exists first others,
    ["lemon@m/44'/501'/0'/0'"%string; "lemon@m/44'/501'/1'/0'"%string] = first :: others
    /\ Wallet.createWalletFromMnemonic
         (fun m : string => negb (String.eqb m ""))
         (fun m : string => m)
         (fun (path seed : string) => @inr string string (seed ++ "@" ++ path)%string)
         (fun key : string => @inr string string key)
         "lemon"%string None = inr first.
Proof.
  apply (first_derived_wallet_is_the_default_wallet
           (fun m : string => negb (String.eqb m ""))
           (fun m : string => m)
           (fun (path seed : string) => @inr string string (seed ++ "@" ++ path)%string)
           (fun key : string => @inr string string key)
           "lemon"%string 2); [reflexivity | lia].
Defined.

Lemma deriving_wallets_composes_witness :
  Wallet.deriveMultipleWallets
    (fun m : string => negb (String.eqb m ""))
    (fun m : string => m)
    (fun (path seed : string) => @inr string string (seed ++ "@" ++ path)%string)
    (fun key : string => @inr string string key)
    "lemon"%string (1 + 2) (Some 9)
  = inr (["lemon@m/44'/501'/9'/0'"%string]
         ++ ["lemon@m/44'/501'/10'/0'"%string; "lemon@m/44'/501'/11'/0'"%string]).
Proof.
  apply (deriving_wallets_composes
           (fun m : string => negb (String.eqb m ""))
           (fun m : string => m)
           (fun (path seed : string) => @inr string string (seed ++ "@" ++ path)%string)
           (fun key : string => @inr string string key)
           "lemon"%string 1 2 9); [lia | lia | reflexivity | reflexivity].
Defined.

(** ** getTokenBalance: when it fails *)

Section TokenOutcome.
Context {PublicKey Error : Type}.
Variable newPublicKey : string -> Error + PublicKey.
Variable toString : PublicKey -> string.
Variable getAssociatedTokenAddress : PublicKey -> PublicKey -> Error + PublicKey.
Variable getMint : PublicKey -> Error + Token.MintInfo.
Variable getTokenAccountBalance : PublicKey -> Error + Z.
Variable Math_pow : Binary64.float -> Binary64.float -> Binary64.float.

(** X11.  [getTokenBalance] succeeds exactly when both addresses are public
    keys, the token account address can be derived and the mint can be read;
    the balance lookup never decides.  A result always names the derived
    token account.  A failure to parse an address is thrown without being
    logged; a failure to derive the address or read the mint is logged once
    and rethrown unchanged. *)
Theorem token_balance_outcome :
  forall (walletAddress mintAddress : string + PublicKey),
    let out := Token.getTokenBalance newPublicKey toString getAssociatedTokenAddress
                 getMint getTokenAccountBalance Math_pow walletAddress mintAddress in
    (forall walletPublicKey mintPublicKey tokenAccountAddress mintInfo,
        Token.asPublicKey newPublicKey walletAddress = inr walletPublicKey ->
        Token.asPublicKey newPublicKey mintAddress = inr mintPublicKey ->
        getAssociatedTokenAddress mintPublicKey walletPublicKey = inr tokenAccountAddress ->
        getMint mintPublicKey = inr mintInfo ->
        exists b, out = (inr b, [])
                  /\ Token.tokenAccount b = toString tokenAccountAddress)
    /\ (forall b, fst out = inr b ->
          exists walletPublicKey mintPublicKey tokenAccountAddress mintInfo,
            Token.asPublicKey newPublicKey walletAddress = inr walletPublicKey
            /\ Token.asPublicKey newPublicKey mintAddress = inr mintPublicKey
            /\ getAssociatedTokenAddress mintPublicKey walletPublicKey = inr tokenAccountAddress
            /\ getMint mintPublicKey = inr mintInfo)
    /\ (forall e, fst out = inl e ->
          (snd out = []
           /\ (Token.asPublicKey newPublicKey walletAddress = inl e
               \/ Token.asPublicKey newPublicKey mintAddress = inl e))
          \/ (snd out = [e]
              /\ exists walletPublicKey mintPublicKey,
                   Token.asPublicKey newPublicKey walletAddress = inr walletPublicKey
                   /\ Token.asPublicKey newPublicKey mintAddress = inr mintPublicKey
                   /\ (getAssociatedTokenAddress mintPublicKey walletPublicKey = inl e
                       \/ getMint mintPublicKey = inl e))).
Proof.
  intros walletAddress mintAddress out. subst out. unfold Token.getTokenBalance.
  destruct (Token.asPublicKey newPublicKey walletAddress) as [e1|wpk] eqn:Hw.
  { repeat split; try discriminate. intros e [= <-]. left. auto. }
  destruct (Token.asPublicKey newPublicKey mintAddress) as [e2|mpk] eqn:Hm.
  { repeat split; try discriminate. intros e [= <-]. left. auto. }
  destruct (getAssociatedTokenAddress mpk wpk) as [e3|ata] eqn:Hata.
  { repeat split; try discriminate.
    - intros ? ? ? ? [= <-] [= <-]. congruence.
    - intros e [= <-]. right. split; [reflexivity|]. exists wpk, mpk. auto. }
  destruct (getMint mpk) as [e4|info] eqn:Hinfo.
  { repeat split; try discriminate.
    - intros ? ? ? ? [= <-] [= <-]. congruence.
    - intros e [= <-]. right. split; [reflexivity|]. exists wpk, mpk. auto. }
  repeat split.
  - intros ? ? ? ? [= <-] [= <-] Ha _. rewrite Hata in Ha. injection Ha as <-.
    destruct (getTokenAccountBalance ata); eexists; split; reflexivity.
  - intros b _. exists wpk, mpk, ata, info. auto.
  - intros e H. destruct (getTokenAccountBalance ata); discriminate H.
Qed.

End TokenOutcome.

Lemma token_balance_outcome_witness :
  exists b,
    Token.getTokenBalance
      (fun text : string => if String.eqb text "" then inl "bad key"%string else inr text)
      (fun key : string => key)
      (fun mint owner : string => inr (String.append owner (String.append "/" mint)))
      (fun mint : string => inr (Token.mkMint 6))
      (fun account : string => @inl string Z "rpc down"%string)
      (fun base exponent : Binary64.float => Binary64.of_Z 1000000)
      (inl "alice"%string) (inr "usdc"%string)
    = (inr b, [])
    /\ Token.tokenAccount b = "alice/usdc"%string.
Proof.
  exact (proj1 (token_balance_outcome
                  (fun text : string => if String.eqb text "" then inl "bad key"%string else inr text)
                  (fun key : string => key)
                  (fun mint owner : string => inr (String.append owner (String.append "/" mint)))
                  (fun mint : string => inr (Token.mkMint 6))
                  (fun account : string => @inl string Z "rpc down"%string)
                  (fun base exponent : Binary64.float => Binary64.of_Z 1000000)
                  (inl "alice"%string) (inr "usdc"%string))
               "alice"%string "usdc"%string "alice/usdc"%string (Token.mkMint 6)
               eq_refl eq_refl eq_refl eq_refl).
Defined.

(** ** transferSOL: what is submitted, and when *)

Ltac transfer_cases H :=
  unfold Transfer.transferSOL, Transfer.try_catch, Transfer.bind, Transfer.sdk,
    Transfer.read_ledger, Transfer.record, Transfer.print, Transfer.throw,
    Transfer.ret in H;
  repeat match type of H with
         | context [match ?x with _ => _ end] =>
             lazymatch x with
             | context [match _ with _ => _ end] => fail
             | _ => destruct x eqn:?; cbn in H
             end
         end;
  injection H as <- <-; cbn.

Section TransferOutcome.
Context {Bytes Keypair PublicKey Blockhash Signature Simulation Ledger Error : Type}.
Context {Instruction : Type}.
Variable bs58_decode : string -> Error + Bytes.
Variable fromSecretKey : Bytes -> Error + Keypair.
Variable publicKey : Keypair -> PublicKey.
Variable newPublicKey : string -> Error + PublicKey.
Variable isOnCurve : PublicKey -> bool.
Variable getBalance : Ledger -> PublicKey -> Error + Z.
Variable SystemProgram_transfer : PublicKey -> PublicKey -> Binary64.float -> Error + Instruction.
Variable getLatestBlockhash : Ledger -> Error + Blockhash.
Variable simulateTransaction :
  Ledger
  -> Transfer.Transaction (PublicKey:=PublicKey) (Blockhash:=Blockhash)
       (Instruction:=Instruction)
  -> Error + Simulation.
Variable sendAndConfirmTransaction :
  Ledger
  -> Transfer.Transaction (PublicKey:=PublicKey) (Blockhash:=Blockhash)
       (Instruction:=Instruction)
  -> (Error + Signature) * Ledger.

(** X12.  A recipient address that is a public key but not on the curve is
    refused before the cluster is asked anything: no request is made, the
    ledger is untouched, and the error is printed once. *)
Theorem off_curve_recipient_makes_no_request :
  forall (secretKey recipientAddress : string) (amount : Binary64.float)
         (w : Transfer.World (Signature:=Signature) (Simulation:=Simulation)
                (Instruction:=Instruction))
         (decoded : Bytes) (sender : Keypair) (recipient : PublicKey),
    bs58_decode secretKey = inr decoded ->
    fromSecretKey decoded = inr sender ->
    newPublicKey recipientAddress = inr recipient ->
    isOnCurve recipient = false ->
    Transfer.transferSOL bs58_decode fromSecretKey publicKey newPublicKey isOnCurve
      getBalance SystemProgram_transfer getLatestBlockhash simulateTransaction
      sendAndConfirmTransaction secretKey recipientAddress amount w
    = (inl Transfer.InvalidRecipient,
       Transfer.mkWorld (Transfer.ledger w) (Transfer.actions w)
         (Transfer.printed w ++ [Transfer.LineFailed Transfer.InvalidRecipient])).
Proof.
  intros secretKey recipientAddress amount w decoded sender recipient
         Hdecode Hkey Hrecipient Hcurve.
  unfold Transfer.transferSOL, Transfer.try_catch, Transfer.bind, Transfer.sdk,
    Transfer.read_ledger, Transfer.record, Transfer.print, Transfer.throw, Transfer.ret.
  now rewrite Hdecode, Hkey, Hrecipient, Hcurve.
Qed.

(** X13.  A transaction is handed to [sendAndConfirmTransaction] only after
    every check has passed: the key and the address decode, the recipient is
    on the curve, the balance read is not below the amount in lamports plus
    5000 (in binary64, as the script computes them), and
    [SystemProgram.transfer] accepted those lamports.  The transaction then
    holds the instruction that call returned for the sender, the recipient
    and the lamports, and nothing else, with the sender as fee payer. *)
Theorem submission_only_after_checks :
  forall (secretKey recipientAddress : string) (amount : Binary64.float)
         (w w' : Transfer.World (Signature:=Signature) (Simulation:=Simulation)
                   (Instruction:=Instruction))
         (outcome : Transfer.Thrown (Error:=Error) + Signature)
         (tx : Transfer.Transaction),
    Transfer.transferSOL bs58_decode fromSecretKey publicKey newPublicKey isOnCurve
      getBalance SystemProgram_transfer getLatestBlockhash simulateTransaction
      sendAndConfirmTransaction secretKey recipientAddress amount w = (outcome, w') ->
    In (Transfer.SendAndConfirm tx) (Transfer.actions w') ->
    In (Transfer.SendAndConfirm tx) (Transfer.actions w)
    \/ exists decoded sender recipient senderBalance instruction blockhash,
         bs58_decode secretKey = inr decoded
         /\ fromSecretKey decoded = inr sender
         /\ newPublicKey recipientAddress = inr recipient
         /\ isOnCurve recipient = true
         /\ getBalance (Transfer.ledger w) (publicKey sender) = inr senderBalance
         /\ Binary64.flt (Binary64.of_Z senderBalance)
              (Binary64.fadd
                 (Binary64.fmul amount (Binary64.of_Z Transfer.LAMPORTS_PER_SOL))
                 (Binary64.of_Z 5000)) = false
         /\ SystemProgram_transfer (publicKey sender) recipient
              (Binary64.fmul amount (Binary64.of_Z Transfer.LAMPORTS_PER_SOL))
            = inr instruction
         /\ getLatestBlockhash (Transfer.ledger w) = inr blockhash
         /\ tx = Transfer.mkTransaction [instruction]
                   (Some (publicKey sender)) (Some blockhash).
Proof.
  intros secretKey recipientAddress amount w w' outcome tx H.
  transfer_cases H; intros Hin; rewrite ?in_app_iff in Hin; simpl in Hin;
    decompose [or] Hin; try discriminate; try contradiction; auto.
  all: match goal with Heq : Transfer.SendAndConfirm _ = Transfer.SendAndConfirm _ |- _ =>
         injection Heq as <- end.
  all: right; do 6 eexists; repeat split; eauto.
  all: match goal with Hc : negb (isOnCurve _) = false |- _ =>
         now apply negb_false_iff in Hc end.
Qed.

(** X14.  When every step succeeds, the call returns the signature the
    cluster gave, made its requests in this order: balance, blockhash,
    simulation, submission; and printed the start line, the simulation and
    the success line.  The simulation's result is printed and nothing else:
    whatever it reports, the transaction is submitted.  (The steps that can
    fail include [SystemProgram.transfer], which is given the lamports as
    binary64 computed them.) *)
Theorem transfer_submits_whatever_simulation_reports :
  forall (secretKey recipientAddress : string) (amount : Binary64.float)
         (w : Transfer.World (Signature:=Signature) (Simulation:=Simulation)
                (Instruction:=Instruction))
         (decoded : Bytes) (sender : Keypair) (recipient : PublicKey)
         (senderBalance : Z) (instruction : Instruction) (blockhash : Blockhash)
         (simulated : Simulation) (signature : Signature) (chain' : Ledger),
    bs58_decode secretKey = inr decoded ->
    fromSecretKey decoded = inr sender ->
    newPublicKey recipientAddress = inr recipient ->
    isOnCurve recipient = true ->
    getBalance (Transfer.ledger w) (publicKey sender) = inr senderBalance ->
    let lamports := Binary64.fmul amount (Binary64.of_Z Transfer.LAMPORTS_PER_SOL) in
    Binary64.flt (Binary64.of_Z senderBalance)
                 (Binary64.fadd lamports (Binary64.of_Z 5000)) = false ->
    SystemProgram_transfer (publicKey sender) recipient lamports = inr instruction ->
    getLatestBlockhash (Transfer.ledger w) = inr blockhash ->
    let built := Transfer.mkTransaction [instruction] None None in
    let tx := Transfer.mkTransaction [instruction]
                (Some (publicKey sender)) (Some blockhash) in
    simulateTransaction (Transfer.ledger w) tx = inr simulated ->
    sendAndConfirmTransaction (Transfer.ledger w) tx = (inr signature, chain') ->
    Transfer.transferSOL bs58_decode fromSecretKey publicKey newPublicKey isOnCurve
      getBalance SystemProgram_transfer getLatestBlockhash simulateTransaction
      sendAndConfirmTransaction secretKey recipientAddress amount w
    = (inr signature,
       Transfer.mkWorld chain'
         (Transfer.actions w
          ++ [Transfer.GetBalance (publicKey sender); Transfer.BuildTransfer built;
              Transfer.GetLatestBlockhash; Transfer.Simulate tx;
              Transfer.SendAndConfirm tx])
         (Transfer.printed w
          ++ [Transfer.LineStart amount (publicKey sender) recipientAddress;
              Transfer.LineSimulated simulated; Transfer.LineSuccess signature])).
Proof.
  intros secretKey recipientAddress amount w decoded sender recipient senderBalance
         instruction blockhash simulated signature chain'
         Hdecode Hkey Hrecipient Hcurve Hbalance lamports Henough Hbuilt Hhash built tx
         Hsim Hsend.
  unfold Transfer.transferSOL, Transfer.try_catch, Transfer.bind, Transfer.sdk,
    Transfer.read_ledger, Transfer.record, Transfer.print, Transfer.throw, Transfer.ret.
  rewrite Hdecode, Hkey, Hrecipient, Hcurve. cbn.
  rewrite Hbalance. cbn. fold lamports. rewrite Henough. cbn.
  rewrite Hbuilt. cbn. rewrite Hhash. cbn.
  fold tx. rewrite Hsim. cbn. rewrite Hsend. cbn.
  rewrite <- !app_assoc. reflexivity.
Qed.

(** X15.  Whatever makes the call fail, the error is printed once, as the
    last line, and the same error is thrown to the caller. *)
Theorem transfer_failure_is_printed_and_rethrown :
  forall (secretKey recipientAddress : string) (amount : Binary64.float)
         (w w' : Transfer.World (Signature:=Signature) (Simulation:=Simulation)
                   (Instruction:=Instruction))
         (error : Transfer.Thrown (Error:=Error)),
    Transfer.transferSOL bs58_decode fromSecretKey publicKey newPublicKey isOnCurve
      getBalance SystemProgram_transfer getLatestBlockhash simulateTransaction
      sendAndConfirmTransaction secretKey recipientAddress amount w = (inl error, w') ->
    exists lines,
      Transfer.printed w' = Transfer.printed w ++ lines ++ [Transfer.LineFailed error]
      /\ forall e, ~ In (Transfer.LineFailed e) lines.
Proof.
  intros secretKey recipientAddress amount w w' error H.
  remember (inl error) as outcome eqn:Hout in H.
  transfer_cases H; try discriminate Hout; injection Hout as <-;
    rewrite <- ?app_assoc; cbn.
  all: first [ exists []; split; [reflexivity | intros e0 Hl; destruct Hl]
             | eexists [_]; split;
               [reflexivity | intros e0 [Hl|Hl]; [discriminate Hl | destruct Hl]]
             | eexists [_; _]; split;
               [reflexivity
               | intros e0 [Hl|[Hl|Hl]]; [discriminate Hl | discriminate Hl | destruct Hl]] ].
Qed.

End TransferOutcome.

Lemma off_curve_recipient_makes_no_request_witness :
  Demo.transferSOL "alice"%string "pda-vault"%string (Demo.sol 1 1) Demo.world
  = (inl Transfer.InvalidRecipient,
     Transfer.mkWorld Demo.chain [] [Transfer.LineFailed Transfer.InvalidRecipient]).
Proof.
  exact (off_curve_recipient_makes_no_request
           Demo.bs58_decode Demo.fromSecretKey Demo.publicKey Demo.newPublicKey
           Demo.isOnCurve Demo.getBalance Demo.SystemProgram_transfer
           Demo.getLatestBlockhash Demo.simulateTransaction
           Demo.sendAndConfirmTransaction
           "alice"%string "pda-vault"%string (Demo.sol 1 1) Demo.world
           "alice"%string "alice"%string "pda-vault"%string
           eq_refl eq_refl eq_refl eq_refl).
Defined.

Lemma submission_only_after_checks_witness :
  let amount := Demo.sol 1 100 in
  let lamports := Binary64.fmul amount (Binary64.of_Z Transfer.LAMPORTS_PER_SOL) in
  let tx := Transfer.mkTransaction [("alice"%string, "bob"%string, 10000000)]
              (Some "alice"%string) (Some "blockhash"%string) in
  In (Transfer.SendAndConfirm tx) (Transfer.actions Demo.world)
  \/ exists decoded sender recipient senderBalance instruction blockhash,
       Demo.bs58_decode "alice"%string = inr decoded
       /\ Demo.fromSecretKey decoded = inr sender
       /\ Demo.newPublicKey "bob"%string = inr recipient
       /\ Demo.isOnCurve recipient = true
       /\ Demo.getBalance (Transfer.ledger Demo.world) (Demo.publicKey sender)
          = inr senderBalance
       /\ Binary64.flt (Binary64.of_Z senderBalance)
            (Binary64.fadd lamports (Binary64.of_Z 5000)) = false
       /\ Demo.SystemProgram_transfer (Demo.publicKey sender) recipient lamports
          = inr instruction
       /\ Demo.getLatestBlockhash (Transfer.ledger Demo.world) = inr blockhash
       /\ tx = Transfer.mkTransaction [instruction]
                 (Some (Demo.publicKey sender)) (Some blockhash).
Proof.
  intros amount lamports tx.
  refine (submission_only_after_checks
            Demo.bs58_decode Demo.fromSecretKey Demo.publicKey Demo.newPublicKey
            Demo.isOnCurve Demo.getBalance Demo.SystemProgram_transfer
            Demo.getLatestBlockhash Demo.simulateTransaction
            Demo.sendAndConfirmTransaction
            "alice"%string "bob"%string amount Demo.world
            (snd (Demo.transferSOL "alice"%string "bob"%string amount Demo.world))
            (fst (Demo.transferSOL "alice"%string "bob"%string amount Demo.world))
            tx (surjective_pairing _) _).
  vm_compute. auto 10.
Defined.

Lemma transfer_submits_whatever_simulation_reports_witness :
  fst (Demo.transferSOL "alice"%string "bob"%string (Demo.sol 3 2) Demo.world)
  = inr "signature"%string.
Proof.
  assert (Henough : Binary64.flt (Binary64.of_Z 2000000000)
                      (Binary64.fadd
                         (Binary64.fmul (Demo.sol 3 2)
                            (Binary64.of_Z Transfer.LAMPORTS_PER_SOL))
                         (Binary64.of_Z 5000)) = false)
    by (vm_compute; reflexivity).
  assert (Hbuilt : Demo.SystemProgram_transfer "alice"%string "bob"%string
                     (Binary64.fmul (Demo.sol 3 2)
                        (Binary64.of_Z Transfer.LAMPORTS_PER_SOL))
                   = inr ("alice"%string, "bob"%string, 1500000000))
    by (vm_compute; reflexivity).
  exact (f_equal fst
           (transfer_submits_whatever_simulation_reports
              Demo.bs58_decode Demo.fromSecretKey Demo.publicKey Demo.newPublicKey
              Demo.isOnCurve Demo.getBalance Demo.SystemProgram_transfer
              Demo.getLatestBlockhash Demo.simulateTransaction
              Demo.sendAndConfirmTransaction
              "alice"%string "bob"%string (Demo.sol 3 2) Demo.world
              "alice"%string "alice"%string "bob"%string 2000000000
              ("alice"%string, "bob"%string, 1500000000)
              "blockhash"%string true "signature"%string Demo.chain
              eq_refl eq_refl eq_refl eq_refl eq_refl Henough Hbuilt eq_refl
              eq_refl eq_refl)).
Defined.

(** Lamports that are not a whole number: 0.067 SOL is 67000000.00000001
    lamports in binary64.  The balance check passes, the instruction cannot
    be built, and the call fails with the error of [SystemProgram.transfer]
    before a transaction exists. *)
Example fractional_lamports_are_refused :
  let run := Demo.transferSOL "alice"%string "bob"%string (Demo.sol 67 1000) Demo.world in
  Binary64.to_integer
    (Binary64.fmul (Demo.sol 67 1000) (Binary64.of_Z Transfer.LAMPORTS_PER_SOL)) = None
  /\ Binary64.floor
       (Binary64.fmul (Demo.sol 67 1000) (Binary64.of_Z Transfer.LAMPORTS_PER_SOL))
     = JS.Finite 67000000
  /\ fst run = inl (Transfer.SdkError "RangeError: not an integer"%string)
  /\ Transfer.actions (snd run) = [Transfer.GetBalance "alice"%string].
Proof. vm_compute. repeat split. Qed.

Lemma transfer_failure_is_printed_and_rethrown_witness :
  exists lines,
    Transfer.printed
      (snd (Demo.transferSOL ""%string "bob"%string (Demo.sol 1 1) Demo.world))
    = Transfer.printed Demo.world ++ lines
      ++ [Transfer.LineFailed (Transfer.SdkError "Non-base58 character"%string)]
    /\ forall e, ~ In (Transfer.LineFailed e) lines.
Proof.
  exact (transfer_failure_is_printed_and_rethrown
           Demo.bs58_decode Demo.fromSecretKey Demo.publicKey Demo.newPublicKey
           Demo.isOnCurve Demo.getBalance Demo.SystemProgram_transfer
           Demo.getLatestBlockhash Demo.simulateTransaction
           Demo.sendAndConfirmTransaction
           ""%string "bob"%string (Demo.sol 1 1) Demo.world _ _ eq_refl).
Defined.

(** ** transferSPLToken: what is submitted, and when *)

Ltac spl_unfold :=
  unfold SplTransfer.transferSPLToken, SplTransfer.try_catch, SplTransfer.bind,
    SplTransfer.sdk, SplTransfer.read_ledger, SplTransfer.record, SplTransfer.print,
    SplTransfer.throw, SplTransfer.ret.

Ltac spl_cases H :=
  unfold SplTransfer.transferSPLToken, SplTransfer.try_catch, SplTransfer.bind,
    SplTransfer.sdk, SplTransfer.read_ledger, SplTransfer.record, SplTransfer.print,
    SplTransfer.throw, SplTransfer.ret in H;
  repeat match type of H with
         | context [match ?x with _ => _ end] =>
             lazymatch x with
             | context [match _ with _ => _ end] => fail
             | _ => destruct x eqn:?; cbn in H
             end
         end;
  injection H as <- <-; cbn.

Section SplFacts.
Context {Bytes Keypair PublicKey Blockhash Signature Ledger Error Number : Type}.
Variable bs58_decode : string -> Error + Bytes.
Variable fromSecretKey : Bytes -> Error + Keypair.
Variable publicKey : Keypair -> PublicKey.
Variable newPublicKey : string -> Error + PublicKey.
Variable toString : PublicKey -> string.
Variable isOnCurve : PublicKey -> bool.
Variable getMint : Ledger -> PublicKey -> Error + Z.
Variable getAssociatedTokenAddress : PublicKey -> PublicKey -> Error + PublicKey.
Variable getAccount : Ledger -> PublicKey -> Error + Z.
Variable getLatestBlockhash : Ledger -> Error + Blockhash.
Variable sendAndConfirmTransaction :
  Ledger -> SplTransfer.Transaction (PublicKey:=PublicKey) (Blockhash:=Blockhash)
  -> (Error + Signature) * Ledger.
Variable scale : Number -> Z -> Error + Z.
Variable display : Z -> Z -> Number.

(** X16.  When the sender's token account cannot be read, whatever the
    reason, the call fails with its own no-token-account error naming the
    mint; the recipient's account is never looked up and nothing is
    submitted. *)
Theorem unreadable_sender_account_is_reported :
  forall (secretKey recipientAddress tokenMintAddress : string) (amount : Number)
         (w : SplTransfer.World (Signature:=Signature) (Number:=Number))
         (decoded : Bytes) (sender : Keypair) (recipient mint senderAccount : PublicKey)
         (decimals : Z) (reason : Error),
    bs58_decode secretKey = inr decoded ->
    fromSecretKey decoded = inr sender ->
    newPublicKey recipientAddress = inr recipient ->
    newPublicKey tokenMintAddress = inr mint ->
    isOnCurve recipient = true ->
    getMint (SplTransfer.ledger w) mint = inr decimals ->
    getAssociatedTokenAddress mint (publicKey sender) = inr senderAccount ->
    getAccount (SplTransfer.ledger w) senderAccount = inl reason ->
    let error := SplTransfer.NoSenderTokenAccount tokenMintAddress in
    SplTransfer.transferSPLToken bs58_decode fromSecretKey publicKey newPublicKey toString
      isOnCurve getMint getAssociatedTokenAddress getAccount getLatestBlockhash
      sendAndConfirmTransaction scale display
      secretKey recipientAddress tokenMintAddress amount w
    = (inl error,
       SplTransfer.mkWorld (SplTransfer.ledger w)
         (SplTransfer.actions w
          ++ [SplTransfer.GetMint mint; SplTransfer.GetAccount senderAccount])
         (SplTransfer.printed w
          ++ [SplTransfer.LineFetching tokenMintAddress; SplTransfer.LineDecimals decimals;
              SplTransfer.LineFailed error])).
Proof.
  intros secretKey recipientAddress tokenMintAddress amount w decoded sender recipient
         mint senderAccount decimals reason
         Hdecode Hkey Hrecipient Hmint Hcurve Hdecimals Hata Haccount error.
  spl_unfold.
  rewrite Hdecode, Hkey, Hrecipient, Hmint, Hcurve. cbn.
  rewrite Hdecimals. cbn. rewrite Hata. cbn. rewrite Haccount. cbn.
  rewrite <- !app_assoc. reflexivity.
Qed.

(** X17.  When the sender's token account holds less than the raw amount
    asked for, the call fails with the insufficient-tokens error, showing the
    balance it read; the recipient's account is never looked up and nothing
    is submitted. *)
Theorem insufficient_tokens_stop_transfer :
  forall (secretKey recipientAddress tokenMintAddress : string) (amount : Number)
         (w : SplTransfer.World (Signature:=Signature) (Number:=Number))
         (decoded : Bytes) (sender : Keypair) (recipient mint senderAccount : PublicKey)
         (decimals held raw : Z),
    bs58_decode secretKey = inr decoded ->
    fromSecretKey decoded = inr sender ->
    newPublicKey recipientAddress = inr recipient ->
    newPublicKey tokenMintAddress = inr mint ->
    isOnCurve recipient = true ->
    getMint (SplTransfer.ledger w) mint = inr decimals ->
    getAssociatedTokenAddress mint (publicKey sender) = inr senderAccount ->
    getAccount (SplTransfer.ledger w) senderAccount = inr held ->
    scale amount decimals = inr raw ->
    held < raw ->
    let error := SplTransfer.InsufficientTokens (display held decimals) amount in
    SplTransfer.transferSPLToken bs58_decode fromSecretKey publicKey newPublicKey toString
      isOnCurve getMint getAssociatedTokenAddress getAccount getLatestBlockhash
      sendAndConfirmTransaction scale display
      secretKey recipientAddress tokenMintAddress amount w
    = (inl error,
       SplTransfer.mkWorld (SplTransfer.ledger w)
         (SplTransfer.actions w
          ++ [SplTransfer.GetMint mint; SplTransfer.GetAccount senderAccount])
         (SplTransfer.printed w
          ++ [SplTransfer.LineFetching tokenMintAddress; SplTransfer.LineDecimals decimals;
              SplTransfer.LineFailed error])).
Proof.
  intros secretKey recipientAddress tokenMintAddress amount w decoded sender recipient
         mint senderAccount decimals held raw
         Hdecode Hkey Hrecipient Hmint Hcurve Hdecimals Hata Haccount Hraw Hless error.
  spl_unfold.
  rewrite Hdecode, Hkey, Hrecipient, Hmint, Hcurve. cbn.
  rewrite Hdecimals. cbn. rewrite Hata. cbn. rewrite Haccount. cbn. rewrite Hraw. cbn.
  replace (held <? raw) with true by lia. cbn.
  rewrite <- !app_assoc. reflexivity.
Qed.

(** X18.  When every check passes and the cluster accepts the transaction,
    the transaction submitted ends with the transfer of the raw amount from
    the sender's token account to the recipient's, preceded by the creation
    of the recipient's token account (paid by the sender) exactly when that
    account could not be read; the receipt reports the raw amount, the
    decimals and the recipient's token account. *)
Theorem token_transfer_creates_missing_account :
  forall (secretKey recipientAddress tokenMintAddress : string) (amount : Number)
         (w : SplTransfer.World (Signature:=Signature) (Number:=Number))
         (decoded : Bytes) (sender : Keypair)
         (recipient mint senderAccount recipientAccount : PublicKey)
         (decimals held raw : Z) (blockhash : Blockhash) (signature : Signature)
         (chain' : Ledger),
    bs58_decode secretKey = inr decoded ->
    fromSecretKey decoded = inr sender ->
    newPublicKey recipientAddress = inr recipient ->
    newPublicKey tokenMintAddress = inr mint ->
    isOnCurve recipient = true ->
    getMint (SplTransfer.ledger w) mint = inr decimals ->
    getAssociatedTokenAddress mint (publicKey sender) = inr senderAccount ->
    getAccount (SplTransfer.ledger w) senderAccount = inr held ->
    scale amount decimals = inr raw ->
    raw <= held ->
    getAssociatedTokenAddress mint recipient = inr recipientAccount ->
    getLatestBlockhash (SplTransfer.ledger w) = inr blockhash ->
    let missing :=
      match getAccount (SplTransfer.ledger w) recipientAccount with
      | inr _ => false
      | inl _ => true
      end in
    let tx :=
      SplTransfer.mkTransaction
        ((if missing
          then [SplTransfer.CreateAssociatedTokenAccount (publicKey sender)
                  recipientAccount recipient mint]
          else [])
         ++ [SplTransfer.TransferInstruction senderAccount recipientAccount
               (publicKey sender) raw])
        (Some (publicKey sender)) (Some blockhash) in
    sendAndConfirmTransaction (SplTransfer.ledger w) tx = (inr signature, chain') ->
    let '(outcome, w') :=
      SplTransfer.transferSPLToken bs58_decode fromSecretKey publicKey newPublicKey
        toString isOnCurve getMint getAssociatedTokenAddress getAccount
        getLatestBlockhash sendAndConfirmTransaction scale display
        secretKey recipientAddress tokenMintAddress amount w in
    outcome = inr (SplTransfer.mkReceipt signature decimals amount raw
                     (toString recipientAccount))
    /\ SplTransfer.ledger w' = chain'
    /\ SplTransfer.actions w'
       = SplTransfer.actions w
         ++ [SplTransfer.GetMint mint; SplTransfer.GetAccount senderAccount;
             SplTransfer.GetAccount recipientAccount; SplTransfer.GetLatestBlockhash;
             SplTransfer.SendAndConfirm tx].
Proof.
  intros secretKey recipientAddress tokenMintAddress amount w decoded sender recipient
         mint senderAccount recipientAccount decimals held raw blockhash signature chain'
         Hdecode Hkey Hrecipient Hmint Hcurve Hdecimals Hata Haccount Hraw Henough
         Hrata Hhash missing tx Hsend.
  spl_unfold.
  rewrite Hdecode, Hkey, Hrecipient, Hmint, Hcurve. cbn.
  rewrite Hdecimals. cbn. rewrite Hata. cbn. rewrite Haccount. cbn. rewrite Hraw. cbn.
  replace (held <? raw) with false by lia. cbn. rewrite Hrata. cbn.
  subst tx missing.
  destruct (getAccount (SplTransfer.ledger w) recipientAccount); cbn;
    rewrite Hhash; cbn; cbn in Hsend; rewrite Hsend; cbn;
    rewrite <- !app_assoc; repeat split.
Qed.

(** X19.  A transaction is handed to [sendAndConfirmTransaction] only when
    the recipient is on the curve and the sender's token account was read
    and holds at least the raw amount; its last instruction is then the
    transfer of exactly that raw amount out of that account, and the sender
    pays the fee. *)
Theorem token_submission_only_after_checks :
  forall (secretKey recipientAddress tokenMintAddress : string) (amount : Number)
         (w w' : SplTransfer.World (Signature:=Signature) (Number:=Number))
         (outcome : SplTransfer.Thrown (Error:=Error) (Number:=Number)
                    + SplTransfer.Receipt (Signature:=Signature) (Number:=Number))
         (tx : SplTransfer.Transaction),
    SplTransfer.transferSPLToken bs58_decode fromSecretKey publicKey newPublicKey toString
      isOnCurve getMint getAssociatedTokenAddress getAccount getLatestBlockhash
      sendAndConfirmTransaction scale display
      secretKey recipientAddress tokenMintAddress amount w = (outcome, w') ->
    In (SplTransfer.SendAndConfirm tx) (SplTransfer.actions w') ->
    In (SplTransfer.SendAndConfirm tx) (SplTransfer.actions w)
    \/ exists decoded sender recipient mint decimals senderAccount recipientAccount
              held raw before,
         bs58_decode secretKey = inr decoded
         /\ fromSecretKey decoded = inr sender
         /\ newPublicKey recipientAddress = inr recipient
         /\ newPublicKey tokenMintAddress = inr mint
         /\ isOnCurve recipient = true
         /\ getMint (SplTransfer.ledger w) mint = inr decimals
         /\ getAssociatedTokenAddress mint (publicKey sender) = inr senderAccount
         /\ getAssociatedTokenAddress mint recipient = inr recipientAccount
         /\ getAccount (SplTransfer.ledger w) senderAccount = inr held
         /\ scale amount decimals = inr raw
         /\ raw <= held
         /\ SplTransfer.instructions tx
            = before ++ [SplTransfer.TransferInstruction senderAccount recipientAccount
                           (publicKey sender) raw]
         /\ SplTransfer.feePayer tx = Some (publicKey sender).
Proof.
  intros secretKey recipientAddress tokenMintAddress amount w w' outcome tx H.
  spl_cases H; intros Hin; rewrite ?in_app_iff in Hin; simpl in Hin;
    decompose [or] Hin; try discriminate; try contradiction; auto.
  all: match goal with
         Heq : SplTransfer.SendAndConfirm _ = SplTransfer.SendAndConfirm _ |- _ =>
           injection Heq as <- end.
  all: repeat match goal with
              | Hc : negb (isOnCurve _) = false |- _ => apply negb_false_iff in Hc
              | Hc : (_ <? _) = false |- _ => apply Z.ltb_ge in Hc
              end.
  all: right; do 9 eexists;
    first [ exists []; solve [repeat split; eauto]
          | eexists [_]; solve [repeat split; eauto] ].
Qed.

End SplFacts.

Lemma unreadable_sender_account_is_reported_witness :
  fst (Demo.transferSPLToken "carol"%string "bob"%string "usdc"%string 1%Q Demo.tokenWorld)
  = inl (SplTransfer.NoSenderTokenAccount "usdc"%string).
Proof.
  exact (f_equal fst
           (unreadable_sender_account_is_reported
              Demo.bs58_decode Demo.fromSecretKey Demo.publicKey Demo.newPublicKey
              Demo.toString Demo.isOnCurve Demo.getMint Demo.getAssociatedTokenAddress
              Demo.getAccount Demo.tokenBlockhash Demo.sendTokens Demo.scale Demo.display
              "carol"%string "bob"%string "usdc"%string 1%Q Demo.tokenWorld
              "carol"%string "carol"%string "bob"%string "usdc"%string
              "carol/usdc"%string 6 "TokenAccountNotFoundError"%string
              eq_refl eq_refl eq_refl eq_refl eq_refl eq_refl eq_refl eq_refl)).
Defined.

Lemma insufficient_tokens_stop_transfer_witness :
  fst (Demo.transferSPLToken "alice"%string "bob"%string "usdc"%string (11 # 2)
         Demo.tokenWorld)
  = inl (SplTransfer.InsufficientTokens (Demo.display 5000000 6) (11 # 2)).
Proof.
  refine (f_equal fst
            (insufficient_tokens_stop_transfer
               Demo.bs58_decode Demo.fromSecretKey Demo.publicKey Demo.newPublicKey
               Demo.toString Demo.isOnCurve Demo.getMint Demo.getAssociatedTokenAddress
               Demo.getAccount Demo.tokenBlockhash Demo.sendTokens Demo.scale Demo.display
               "alice"%string "bob"%string "usdc"%string (11 # 2) Demo.tokenWorld
               "alice"%string "alice"%string "bob"%string "usdc"%string
               "alice/usdc"%string 6 5000000 5500000
               eq_refl eq_refl eq_refl eq_refl eq_refl eq_refl eq_refl eq_refl eq_refl _)).
  lia.
Defined.

Lemma token_transfer_creates_missing_account_witness :
  fst (Demo.transferSPLToken "alice"%string "bob"%string "usdc"%string (5 # 2)
         Demo.tokenWorld)
  = inr (SplTransfer.mkReceipt "signature"%string 6 (5 # 2) 2500000 "bob/usdc"%string)
  /\ In (SplTransfer.SendAndConfirm
           (SplTransfer.mkTransaction
              [SplTransfer.CreateAssociatedTokenAccount "alice"%string "bob/usdc"%string
                 "bob"%string "usdc"%string;
               SplTransfer.TransferInstruction "alice/usdc"%string "bob/usdc"%string
                 "alice"%string 2500000]
              (Some "alice"%string) (Some "blockhash"%string)))
        (SplTransfer.actions
           (snd (Demo.transferSPLToken "alice"%string "bob"%string "usdc"%string (5 # 2)
                   Demo.tokenWorld))).
Proof.
  pose proof (token_transfer_creates_missing_account
                Demo.bs58_decode Demo.fromSecretKey Demo.publicKey Demo.newPublicKey
                Demo.toString Demo.isOnCurve Demo.getMint Demo.getAssociatedTokenAddress
                Demo.getAccount Demo.tokenBlockhash Demo.sendTokens Demo.scale Demo.display
                "alice"%string "bob"%string "usdc"%string (5 # 2) Demo.tokenWorld
                "alice"%string "alice"%string "bob"%string "usdc"%string
                "alice/usdc"%string "bob/usdc"%string 6 5000000 2500000
                "blockhash"%string "signature"%string Demo.tokens
                eq_refl eq_refl eq_refl eq_refl eq_refl eq_refl eq_refl eq_refl eq_refl
                ltac:(lia) eq_refl eq_refl eq_refl) as H.
  change (SplTransfer.transferSPLToken _ _ _ _ _ _ _ _ _ _ _ _ _)
    with Demo.transferSPLToken in H.
  destruct (Demo.transferSPLToken "alice"%string "bob"%string "usdc"%string (5 # 2)
              Demo.tokenWorld) as [outcome w'].
  destruct H as (Hout & _ & Hactions). split; [exact Hout|].
  cbn [snd]. rewrite Hactions. cbn. auto 10.
Defined.

Lemma token_submission_only_after_checks_witness :
  let tx :=
    SplTransfer.mkTransaction
      [SplTransfer.CreateAssociatedTokenAccount "alice"%string "bob/usdc"%string
         "bob"%string "usdc"%string;
       SplTransfer.TransferInstruction "alice/usdc"%string "bob/usdc"%string
         "alice"%string 2500000]
      (Some "alice"%string) (Some "blockhash"%string) in
  In (SplTransfer.SendAndConfirm tx) (SplTransfer.actions Demo.tokenWorld)
  \/ exists decoded sender recipient mint decimals senderAccount recipientAccount
            held raw before,
       Demo.bs58_decode "alice"%string = inr decoded
       /\ Demo.fromSecretKey decoded = inr sender
       /\ Demo.newPublicKey "bob"%string = inr recipient
       /\ Demo.newPublicKey "usdc"%string = inr mint
       /\ Demo.isOnCurve recipient = true
       /\ Demo.getMint (SplTransfer.ledger Demo.tokenWorld) mint = inr decimals
       /\ Demo.getAssociatedTokenAddress mint (Demo.publicKey sender) = inr senderAccount
       /\ Demo.getAssociatedTokenAddress mint recipient = inr recipientAccount
       /\ Demo.getAccount (SplTransfer.ledger Demo.tokenWorld) senderAccount = inr held
       /\ Demo.scale (5 # 2) decimals = inr raw
       /\ raw <= held
       /\ SplTransfer.instructions tx
          = before ++ [SplTransfer.TransferInstruction senderAccount recipientAccount
                         (Demo.publicKey sender) raw]
       /\ SplTransfer.feePayer tx = Some (Demo.publicKey sender).
Proof.
  intros tx.
  refine (token_submission_only_after_checks
            Demo.bs58_decode Demo.fromSecretKey Demo.publicKey Demo.newPublicKey
            Demo.toString Demo.isOnCurve Demo.getMint Demo.getAssociatedTokenAddress
            Demo.getAccount Demo.tokenBlockhash Demo.sendTokens Demo.scale Demo.display
            "alice"%string "bob"%string "usdc"%string (5 # 2) Demo.tokenWorld
            (snd (Demo.transferSPLToken "alice"%string "bob"%string "usdc"%string (5 # 2)
                    Demo.tokenWorld))
            (fst (Demo.transferSPLToken "alice"%string "bob"%string "usdc"%string (5 # 2)
                    Demo.tokenWorld))
            tx (surjective_pairing _) _).
  vm_compute. auto 10.
Defined.

(** ** getWalletBalances: what is listed *)

Section WalletInfoFacts.
Context {PublicKey Error Number : Type}.
Variable newPublicKey : string -> Error + PublicKey.
Variable toString : PublicKey -> string.
Variable getBalance : PublicKey -> Error + Z.
Variable getParsedTokenAccountsByOwner :
  PublicKey -> Error + list (WalletInfo.ParsedTokenAccount (PublicKey:=PublicKey)).
Variable toSol : Z -> Number.
Variable display : Z -> Z -> Number.

Definition entry_of (a : WalletInfo.ParsedTokenAccount (PublicKey:=PublicKey))
  : list (WalletInfo.Line (Error:=Error) (Number:=Number)) :=
  [WalletInfo.LineMint (WalletInfo.mint a);
   WalletInfo.LineAmount (display (WalletInfo.amount a) (WalletInfo.decimals a))
                         (WalletInfo.decimals a);
   WalletInfo.LineTokenAccount (toString (WalletInfo.pubkey a));
   WalletInfo.LineSeparator].

(** The [forEach] prints the entries of the accounts with a positive amount,
    in order, after what was printed before. *)
Lemma fold_show (accounts : list WalletInfo.ParsedTokenAccount)
    (printed : list WalletInfo.Line) :
  fold_left (WalletInfo.show toString display) accounts printed
  = printed ++ flat_map entry_of (List.filter WalletInfo.positive accounts).
Proof.
  revert printed. induction accounts as [|a accounts IH]; intros printed; simpl.
  - now rewrite app_nil_r.
  - rewrite IH. unfold WalletInfo.show.
    destruct (WalletInfo.positive a); simpl; [|reflexivity].
    now rewrite <- app_assoc.
Qed.

Lemma entries_counted (shown : list WalletInfo.ParsedTokenAccount) :
  length (List.filter WalletInfo.is_entry (flat_map entry_of shown)) = length shown.
Proof. induction shown as [|a shown IH]; simpl; congruence. Qed.

(** X20.  For a wallet whose balance and token accounts can be read, the
    function prints the SOL balance, the number of token accounts with a
    positive amount, and then one entry for each of exactly those accounts,
    in the order the cluster returned them: the number announced is the
    number of entries that follow, and an account with amount 0 is never
    listed.  The holds-no-tokens line is printed only when the cluster
    returned no account at all. *)
Theorem listed_tokens_are_the_positive_ones :
  forall (walletAddress : string) (publicKey : PublicKey) (lamportBalance : Z)
         (tokenAccounts : list WalletInfo.ParsedTokenAccount),
    newPublicKey walletAddress = inr publicKey ->
    getBalance publicKey = inr lamportBalance ->
    getParsedTokenAccountsByOwner publicKey = inr tokenAccounts ->
    let shown := List.filter WalletInfo.positive tokenAccounts in
    let printed :=
      WalletInfo.getWalletBalances newPublicKey toString getBalance
        getParsedTokenAccountsByOwner toSol display walletAddress in
    printed
    = [WalletInfo.LineSol (toSol lamportBalance); WalletInfo.LineFound (length shown);
       WalletInfo.LineSeparator]
      ++ match tokenAccounts with
         | [] => [WalletInfo.LineNoTokens]
         | _ => flat_map entry_of shown
         end
    /\ length (List.filter WalletInfo.is_entry printed) = length shown.
Proof.
  intros walletAddress publicKey lamportBalance tokenAccounts Hkey Hbalance Haccounts
         shown printed.
  assert (Hprinted :
            printed
            = [WalletInfo.LineSol (toSol lamportBalance);
               WalletInfo.LineFound (length shown); WalletInfo.LineSeparator]
              ++ match tokenAccounts with
                 | [] => [WalletInfo.LineNoTokens]
                 | _ => flat_map entry_of shown
                 end).
  { subst printed. unfold WalletInfo.getWalletBalances.
    rewrite Hkey, Hbalance, Haccounts.
    destruct tokenAccounts as [|a rest]; [reflexivity|].
    cbn [length Nat.eqb]. now rewrite fold_show. }
  split; [exact Hprinted|].
  rewrite Hprinted. cbn [app List.filter WalletInfo.is_entry].
  destruct tokenAccounts as [|a rest]; [reflexivity|]. apply entries_counted.
Qed.

End WalletInfoFacts.

Lemma listed_tokens_are_the_positive_ones_witness :
  WalletInfo.getWalletBalances
    (fun text : string => @inr string string text)
    (fun key : string => key)
    (fun key : string => @inr string Z 1500000000)
    (fun key : string =>
       @inr string _ [WalletInfo.mkParsed "acc1"%string "usdc"%string 0 6;
                      WalletInfo.mkParsed "acc2"%string "bonk"%string 700 5])
    (fun lamports : Z => (inject_Z lamports / 1000000000)%Q)
    (fun raw decimals : Z => (inject_Z raw / inject_Z (10 ^ decimals))%Q)
    "5B7B"%string
  = [WalletInfo.LineSol (inject_Z 1500000000 / 1000000000)%Q; WalletInfo.LineFound 1;
     WalletInfo.LineSeparator;
     WalletInfo.LineMint "bonk"%string;
     WalletInfo.LineAmount (inject_Z 700 / inject_Z (10 ^ 5))%Q 5;
     WalletInfo.LineTokenAccount "acc2"%string;
     WalletInfo.LineSeparator].
Proof.
  exact (proj1 (listed_tokens_are_the_positive_ones
                  (fun text : string => @inr string string text)
                  (fun key : string => key)
                  (fun key : string => @inr string Z 1500000000)
                  (fun key : string =>
                     @inr string _ [WalletInfo.mkParsed "acc1"%string "usdc"%string 0 6;
                                    WalletInfo.mkParsed "acc2"%string "bonk"%string 700 5])
                  (fun lamports : Z => (inject_Z lamports / 1000000000)%Q)
                  (fun raw decimals : Z => (inject_Z raw / inject_Z (10 ^ decimals))%Q)
                  "5B7B"%string "5B7B"%string 1500000000
                  [WalletInfo.mkParsed "acc1"%string "usdc"%string 0 6;
                   WalletInfo.mkParsed "acc2"%string "bonk"%string 700 5]
                  eq_refl eq_refl eq_refl)).
Defined.
